(** * Risk analysis notebook: factor buckets, FMCAR and tracking portfolios

    A shallow embedding of [lectures/drafts/Risk analysis.ipynb].

    The notebook is a Python 2 script: integer [/] is floor division, the
    numbers it computes with are numpy [float64] values.  A [float64] is
    modelled as an extended real: a finite real number (rounding and overflow
    are not modelled: finite arithmetic is exact), the two infinities and NaN,
    with the IEEE-754 rules for the special values.  The finite values are
    real numbers, not rationals, because [Series.std] takes a square root;
    comparisons are decided by the total order of the reals.  Library calls
    (pandas, numpy) are modelled by what they compute on these values; a
    Python exception is the [Raise] outcome. *)

From Stdlib Require Import String.
From Stdlib Require Import Reals Lra Lia List Arith PeanoNat Bool Permutation.
From Stdlib Require Import Sorted.
Import ListNotations.

Open Scope R_scope.

(** ** Python outcomes *)

Inductive exn : Type :=
| ValueError
| NoUniqueSolution.

Inductive outcome (A : Type) : Type :=
| Ok (a : A)
| Raise (e : exn).

Arguments Ok {A} a.
Arguments Raise {A} e.

Definition bind {A B : Type} (m : outcome A) (k : A -> outcome B) : outcome B :=
  match m with
  | Ok a => k a
  | Raise e => Raise e
  end.

Notation "x <- m ;; k" := (bind m (fun x => k))
  (at level 61, m at next level, right associativity).

(** ** numpy float64 values *)

Inductive float64 : Type :=
| Fin (x : R)
| PInf
| NInf
| NaN.

Definition isnan (v : float64) : bool :=
  match v with NaN => true | _ => false end.

Definition notnan (v : float64) : bool := negb (isnan v).

Definition isfinite (v : float64) : bool :=
  match v with Fin _ => true | _ => false end.

Definition fneg (v : float64) : float64 :=
  match v with
  | Fin x => Fin (- x)
  | PInf => NInf
  | NInf => PInf
  | NaN => NaN
  end.

Definition fadd (v w : float64) : float64 :=
  match v, w with
  | NaN, _ | _, NaN => NaN
  | Fin x, Fin y => Fin (x + y)
  | PInf, NInf | NInf, PInf => NaN
  | PInf, _ | _, PInf => PInf
  | NInf, _ | _, NInf => NInf
  end.

Definition fsub (v w : float64) : float64 := fadd v (fneg w).

(** An infinity times (or a nonzero number over zero, with the sign of) a
    finite [x]: the sign of [x] decides, and zero gives NaN. *)
Definition inf_signed (x : R) : float64 :=
  match total_order_T 0 x with
  | inleft (left _) => PInf
  | inleft (right _) => NaN
  | inright _ => NInf
  end.

Definition fmul (v w : float64) : float64 :=
  match v, w with
  | NaN, _ | _, NaN => NaN
  | Fin x, Fin y => Fin (x * y)
  | PInf, Fin x | Fin x, PInf => inf_signed x
  | NInf, Fin x | Fin x, NInf => inf_signed (- x)
  | PInf, PInf | NInf, NInf => PInf
  | PInf, NInf | NInf, PInf => NInf
  end.

(** numpy's true division: no exception, a zero divisor gives an infinity
    or NaN. *)
Definition fdiv (v w : float64) : float64 :=
  match v, w with
  | NaN, _ | _, NaN => NaN
  | Fin x, Fin y => if Req_EM_T y 0 then inf_signed x else Fin (x / y)
  | Fin _, _ => Fin 0
  | PInf, Fin y => if Rlt_dec y 0 then NInf else PInf
  | NInf, Fin y => if Rlt_dec y 0 then PInf else NInf
  | _, _ => NaN
  end.

Definition fsqrt (v : float64) : float64 :=
  match v with
  | Fin x => if Rlt_dec x 0 then NaN else Fin (sqrt x)
  | PInf => PInf
  | _ => NaN
  end.

(** [x > y] on floats: false whenever NaN is involved. *)
Definition fgt (v w : float64) : bool :=
  match v, w with
  | NaN, _ | _, NaN => false
  | Fin x, Fin y => if Rlt_dec y x then true else false
  | PInf, PInf => false
  | PInf, _ => true
  | Fin _, NInf => true
  | _, _ => false
  end.

Definition fle (v w : float64) : bool :=
  match v, w with
  | NaN, _ | _, NaN => false
  | _, _ => negb (fgt v w)
  end.

Definition of_nat (n : nat) : float64 := Fin (INR n).

Definition fsum (xs : list float64) : float64 := fold_right fadd (Fin 0) xs.

(** [zip_with f xs ys]: elementwise on arrays of one length. *)
Fixpoint zip_with {A B C : Type} (f : A -> B -> C) (xs : list A) (ys : list B)
  : list C :=
  match xs, ys with
  | x :: xs', y :: ys' => f x y :: zip_with f xs' ys'
  | _, _ => []
  end.

(** ** Cell 1: the universe of assets and its filters *)

Module Universe.

(** One row of [get_fundamentals(...).T]: an asset and its two fields. *)
Record row : Type := mkRow {
  sid : nat;
  market_cap : float64;
  book_value_yield : float64
}.

(** [data.dropna(inplace=True)]: rows with a missing field go. *)
Definition dropna (data : list row) : list row :=
  filter (fun r => notnan (market_cap r) && notnan (book_value_yield r)) data.

(** [data.loc[data['book_value_yield'] > 0]] *)
Definition positive_bp (data : list row) : list row :=
  filter (fun r => fgt (book_value_yield r) (Fin 0)) data.

(** The frame [data] that cell 1 leaves for the rankings. *)
Definition data (fundamentals : list row) : list row :=
  positive_bp (dropna fundamentals).

(** [data.sort(column)]: ascending, NaN keys last. *)
Definition key_le (a b : float64) : bool := isnan b || fle a b.

Fixpoint insert_by (key : row -> float64) (r : row) (l : list row) : list row :=
  match l with
  | [] => [r]
  | h :: t => if key_le (key r) (key h) then r :: h :: t
              else h :: insert_by key r t
  end.

Definition sort (key : row -> float64) (data : list row) : list row :=
  fold_right (insert_by key) [] data.

(** ** Cell 2: the 30% buckets.  [/] is Python 2 integer division. *)

Definition market_cap_top (data : list row) : list row :=
  skipn (7 * length data / 10) (sort market_cap data).

Definition market_cap_bottom (data : list row) : list row :=
  firstn (3 * length data / 10) (sort market_cap data).

Definition bp_top (data : list row) : list row :=
  skipn (7 * length data / 10) (sort book_value_yield data).

Definition bp_bottom (data : list row) : list row :=
  firstn (3 * length data / 10) (sort book_value_yield data).

(** [frame.index] *)
Definition index (data : list row) : list nat := map sid data.

(** [r] is ranked no higher than [r'] by the column [key]. *)
Definition ranked (key : row -> float64) (r r' : row) : Prop :=
  key_le (key r) (key r') = true.

(** The boundary the specification names: the ceiling of 0.7 N. *)
Definition ceil_7_10 (n : nat) : nat := ((7 * n + 9) / 10)%nat.

End Universe.

(** ** Price frames and return series *)

Module Pricing.

(** A Series is the list of its values; its index is the position. *)
Definition Series : Type := list float64.

(** A DataFrame of floats: [nrows] index labels and one value list per
    column. *)
Record Frame : Type := mkFrame {
  nrows : nat;
  columns : list Series
}.

(** [fillna(method='pad')]: a missing value takes the last one seen. *)
Fixpoint pad_from (last : float64) (xs : Series) : Series :=
  match xs with
  | [] => []
  | x :: xs' => let v := if isnan x then last else x in v :: pad_from v xs'
  end.

Definition pad (xs : Series) : Series := pad_from NaN xs.

(** [shift(1)]: one NaN in front, the last value falls off. *)
Definition shift1 (xs : Series) : Series := firstn (length xs) (NaN :: xs).

(** [Series.pct_change()]: padded value over its predecessor, minus one;
    NaN where the original value is missing. *)
Definition pct_change (xs : Series) : Series :=
  let data := pad xs in
  let rs := zip_with (fun cur prev => fsub (fdiv cur prev) (Fin 1))
                     data (shift1 data) in
  zip_with (fun orig r => if isnan orig then NaN else r) xs rs.

(** [series[1:]] *)
Definition drop_first (xs : Series) : Series := skipn 1 xs.

Definition frame_pct_change (df : Frame) : Frame :=
  mkFrame (nrows df) (map pct_change (columns df)).

(** [frame[1:]]: a row slice. *)
Definition frame_drop_first (df : Frame) : Frame :=
  mkFrame (nrows df - 1) (map drop_first (columns df)).

(** [frame.T] *)
Definition transpose (df : Frame) : Frame :=
  mkFrame (length (columns df))
          (map (fun i => map (fun c => nth i c NaN) (columns df))
               (seq 0 (nrows df))).

(** [frame.dropna()]: the rows holding a NaN go. *)
Definition complete_rows (df : Frame) : list nat :=
  filter (fun i => forallb (fun c => notnan (nth i c NaN)) (columns df))
         (seq 0 (nrows df)).

Definition frame_dropna (df : Frame) : Frame :=
  mkFrame (length (complete_rows df))
          (map (fun c => map (fun i => nth i c NaN) (complete_rows df))
               (columns df)).

(** The mean pandas computes for a column: over the values present. *)
Definition nanmean (xs : Series) : float64 :=
  let vals := filter notnan xs in
  fdiv (fsum vals) (of_nat (length vals)).

(** [np.mean(frame)]: the Series of the column means. *)
Definition np_mean (df : Frame) : Series := map nanmean (columns df).

(** [a - b] on two Series: aligned on the index, NaN where one side has
    no value. *)
Fixpoint series_sub (xs ys : Series) : Series :=
  match xs, ys with
  | x :: xs', y :: ys' => fsub x y :: series_sub xs' ys'
  | [], _ => map (fun _ => NaN) ys
  | _, [] => map (fun _ => NaN) xs
  end.

(** Mean return of a bucket, per date:
    [np.mean(get_pricing(...).pct_change()[1:].T.dropna())]. *)
Definition bucket_mean (prices : Frame) : Series :=
  np_mean (frame_dropna (transpose (frame_drop_first (frame_pct_change prices)))).

(** Every column holds one value per index label. *)
Definition well_formed (df : Frame) : Prop :=
  Forall (fun c => length c = nrows df) (columns df).

(** The returns of a price history in real numbers: each price over the
    one before it, minus one. *)
Definition simple_returns (prices : list R) : list R :=
  zip_with (fun prev cur => cur / prev - 1) prices (tl prices).

(** The returns of every asset of a bucket on date [t]. *)
Definition cross_section (pss : list (list R)) (t : nat) : list R :=
  map (fun ps => nth t (simple_returns ps) 0) pss.

(** A pricing provider with a complete price history for every asset:
    the frame of the requested assets over [n] dates. *)
Definition complete_pricing (history : nat -> list R) (n : nat)
           (ids : list nat) : Frame :=
  mkFrame n (map (fun id => map Fin (history id)) ids).

Section Notebook.

(** The pricing provider: [get_pricing(ids, fields='price', start, end)]
    for a list of assets is a frame with a row per date and a column per
    asset; for one symbol it is a Series. *)
Variable get_pricing : list nat -> Frame.
Variable get_pricing_symbol : string -> Series.

Definition f1 (data : list Universe.row) : Series :=
  series_sub
    (bucket_mean (get_pricing (Universe.index (Universe.market_cap_top data))))
    (bucket_mean (get_pricing (Universe.index (Universe.market_cap_bottom data)))).

Definition f2 (data : list Universe.row) : Series :=
  series_sub
    (bucket_mean (get_pricing (Universe.index (Universe.bp_top data))))
    (bucket_mean (get_pricing (Universe.index (Universe.bp_bottom data)))).

(** Cell 4 *)
Definition asset : Series :=
  drop_first (pct_change (get_pricing_symbol "HSC"%string)).

Definition bench : Series :=
  drop_first (pct_change (get_pricing_symbol "SPY"%string)).

Definition active : Series := series_sub asset bench.

End Notebook.

End Pricing.

(** ** Cells 5 and 7: covariance, active risk and FMCAR *)

Module Attribution.

Import Pricing.

(** [x ** 2] *)
Definition fsquare (v : float64) : float64 := fmul v v.

(** [ndarray.mean()]: every value counts, a NaN poisons the mean. *)
Definition array_mean (xs : Series) : float64 :=
  fdiv (fsum xs) (of_nat (length xs)).

(** [X -= X.mean(axis=1)] on one row of the stacked array. *)
Definition center (xs : Series) : Series :=
  map (fun x => fsub x (array_mean xs)) xs.

Definition dot (xs ys : Series) : float64 := fsum (zip_with fmul xs ys).

(** [fact = float(N - ddof)], set to [0.0] when it is not positive. *)
Definition cov_fact (n ddof : nat) : float64 :=
  if (n <=? ddof)%nat then Fin 0 else of_nat (n - ddof).

Definition same_length (X : list Series) : bool :=
  match X with
  | [] => true
  | r :: rs => forallb (fun s => (length s =? length r)%nat) rs
  end.

(** [dot(X, X.T) / fact] *)
Definition gram (X : list Series) (fact : float64) : list (list float64) :=
  map (fun r => map (fun s => fdiv (dot r s) fact) X) X.

(** [np.cov] of stacked variables with its defaults ([bias=0], so
    [ddof = 1]); stacking rows of different lengths raises. *)
Definition np_cov_ddof (ddof : nat) (X : list Series)
  : outcome (list (list float64)) :=
  if same_length X
  then Ok (gram (map center X) (cov_fact (length (hd [] X)) ddof))
  else Raise ValueError.

Definition np_cov (m y : Series) : outcome (list (list float64)) :=
  np_cov_ddof 1 [m; y].

(** [c[i, j]] *)
Definition entry (c : list (list float64)) (i j : nat) : float64 :=
  nth j (nth i c []) NaN.

(** pandas [nanvar]: over the values present, NaN unless more than
    [ddof] of them. *)
Definition nanvar (ddof : nat) (xs : Series) : float64 :=
  let vals := filter notnan xs in
  let count := length vals in
  if (count <=? ddof)%nat then NaN
  else
    let avg := fdiv (fsum vals) (of_nat count) in
    fdiv (fsum (map (fun x => fsquare (fsub avg x)) vals))
         (Fin (INR count - INR ddof)).

(** [Series.std()], default [ddof=1]. *)
Definition Series_std (xs : Series) : float64 := fsqrt (nanvar 1 xs).

(** [ar_squared = (active.std())**2] *)
Definition ar_squared (active : Series) : float64 :=
  fsquare (Series_std active).

(** Cell 7, as a function of the notebook's variables.  [b1] and [b2] are
    the slopes cell 5 reads off the statsmodels fit; the regression is
    library code and cell 7 is embedded for any values of them. *)
Definition fmcar1 (b1 b2 : float64) (cov : list (list float64))
           (ar_squared : float64) : float64 :=
  fdiv (fmul b1 (fadd (fmul b2 (entry cov 0 1)) (fmul b1 (entry cov 0 0))))
       ar_squared.

Definition fmcar2 (b1 b2 : float64) (cov : list (list float64))
           (ar_squared : float64) : float64 :=
  fdiv (fmul b2 (fadd (fmul b1 (entry cov 0 1)) (fmul b2 (entry cov 1 1))))
       ar_squared.

Definition cell7 (f1 f2 active : Series) (b1 b2 : float64)
  : outcome (float64 * float64) :=
  cov <- np_cov f1 f2 ;;
  Ok (fmcar1 b1 b2 cov (ar_squared active),
      fmcar2 b1 b2 cov (ar_squared active)).

(** The formula of the notebook's introduction for [K] factors,
    [FMCAR_j = b_j * sum_i b_i Cov(F_j, F_i) / (active risk)^2], with the
    estimators cell 7 uses. *)
Definition FMCAR (bs : list float64) (Fs : list Series) (active : Series)
           (j : nat) : outcome float64 :=
  cov <- np_cov_ddof 1 Fs ;;
  Ok (fdiv (fmul (nth j bs NaN)
                 (fsum (map (fun i => fmul (nth i bs NaN) (entry cov j i))
                            (seq 0 (length Fs)))))
           (ar_squared active)).

(** *** The estimators in the specification's words *)

(** Covariance of two aligned series with [n - ddof] in the denominator;
    undefined (NaN) unless there are more than [ddof] observations. *)
Definition estimator_cov (ddof : nat) (xs ys : Series) : float64 :=
  if (length xs <=? ddof)%nat then NaN
  else
    fdiv (fsum (zip_with (fun x y => fmul (fsub x (array_mean xs))
                                          (fsub y (array_mean ys))) xs ys))
         (of_nat (length xs - ddof)).

Definition sample_cov (xs ys : Series) : float64 := estimator_cov 1 xs ys.

Definition sample_var (xs : Series) : float64 := sample_cov xs xs.

(** A series with no missing observation. *)
Definition complete (xs : Series) : Prop := Forall (fun x => notnan x = true) xs.

(** What a square, a sum of squares or its quotient by a positive count
    can be: a number that is not negative, +inf or NaN. *)
Definition nonneg (v : float64) : Prop :=
  match v with
  | Fin x => 0 <= x
  | NInf => False
  | _ => True
  end.

(** *** The estimators on series of real numbers *)

Definition rsum (xs : list R) : R := fold_right Rplus 0 xs.

Definition rmean (xs : list R) : R := rsum xs / INR (length xs).

(** Sample covariance: the centred products summed, over [n - 1]. *)
Definition rcov (xs ys : list R) : R :=
  rsum (zip_with (fun x y => (x - rmean xs) * (y - rmean ys)) xs ys)
  / INR (length xs - 1).

Definition rvar (xs : list R) : R := rcov xs xs.

(** Mean return of the assets [ids] on date [t], in real numbers. *)
Definition mean_return (history : nat -> list R) (ids : list nat) (t : nat) : R :=
  rmean (cross_section (map history ids) t).

(** The factor part of the model, [b1 * F1 + b2 * F2], date by date. *)
Definition fitted (b1 b2 : R) (xs ys : list R) : list R :=
  zip_with (fun x y => b1 * x + b2 * y) xs ys.

(** The outcome with its two components exchanged. *)
Definition swap_pair (r : outcome (float64 * float64))
  : outcome (float64 * float64) :=
  p <- r ;; Ok (snd p, fst p).

End Attribution.

(** ** The tracking-portfolio example *)

Module Tracking.

(** The sensitivities of the worked example. *)
Definition benchmark : R * R := (1, 11 / 10).
Definition b11 : R := 7 / 10.
Definition b12 : R := 11 / 10.
Definition b21 : R := 1 / 10.
Definition b22 : R := 1 / 2.
Definition b31 : R := 3 / 2.
Definition b32 : R := 13 / 10.

(** The three equations of the example: the portfolio's sensitivities
    match the benchmark's and the weights sum to one. *)
Definition tracking_system (w1 w2 w3 : R) : Prop :=
  w1 * b11 + w2 * b21 + w3 * b31 = fst benchmark /\
  w1 * b12 + w2 * b22 + w3 * b32 = snd benchmark /\
  w1 + w2 + w3 = 1.

End Tracking.

(** ** The tracking-portfolio solver *)

Module Solver.

(** A row of the system: the coefficients, then the right-hand side. *)
Definition equation : Type := list R.

Fixpoint dotR (xs ys : list R) : R :=
  match xs, ys with
  | x :: xs', y :: ys' => x * y + dotR xs' ys'
  | _, _ => 0
  end.

(** Modelled from the spec: the pivot search of the elimination the
    notebook lacks: the first row whose leading coefficient is not zero,
    and the other rows. *)
Fixpoint find_pivot (rows : list equation) : option (equation * list equation) :=
  match rows with
  | [] => None
  | r :: rs =>
      if Req_EM_T (hd 0 r) 0
      then match find_pivot rs with
           | Some (p, rest) => Some (p, r :: rest)
           | None => None
           end
      else Some (r, rs)
  end.

(** Modelled from the spec: the elimination step the notebook lacks: row
    [r] minus the multiple of the pivot row [p] that clears its leading
    coefficient; the cleared column is dropped. *)
Definition eliminate (p r : equation) : equation :=
  zip_with (fun x y => y - hd 0 r / hd 0 p * x) (tl p) (tl r).

(** Modelled from the spec: the notebook states the solution of its
    example and holds no solver; section 4.3 asks for a standard exact
    solution of the square system (Gaussian elimination) that signals
    an explicit no-unique-solution error on a singular matrix.  [solve n]
    eliminates the [n] unknowns one by one and substitutes back. *)
Fixpoint solve (n : nat) (rows : list equation) : outcome (list R) :=
  match n with
  | O => Ok []
  | S n' =>
      match find_pivot rows with
      | None => Raise NoUniqueSolution
      | Some (p, rest) =>
          ws <- solve n' (map (eliminate p) rest) ;;
          Ok ((nth n' (tl p) 0 - dotR (tl p) ws) / hd 0 p :: ws)
      end
  end.

(** Modelled from the spec: the system of section 4.3 for target
    sensitivities [targets] (one per factor) and the candidate assets'
    sensitivity vectors [sens]: one equation per factor,
    [sum_i w_i * b_ij = target_j], and the budget equation
    [sum_i w_i = 1]. *)
Definition tracking_rows (targets : list R) (sens : list (list R))
  : list equation :=
  map (fun j => map (fun b => nth j b 0) sens ++ [nth j targets 0])
      (seq 0 (length targets))
  ++ [repeat 1 (length sens) ++ [1]].

(** Modelled from the spec: the solver of section 4.3. *)
Definition tracking_weights (targets : list R) (sens : list (list R))
  : outcome (list R) :=
  solve (length sens) (tracking_rows targets sens).

(** The rows have [n] coefficients and a right-hand side. *)
Definition shaped (n : nat) (rows : list equation) : Prop :=
  Forall (fun r => length r = S n) rows.

(** The coefficient matrix is singular: some nonzero combination of the
    unknowns vanishes in every row. *)
Definition singular (n : nat) (rows : list equation) : Prop :=
  exists v : list R,
    length v = n /\ Exists (fun x => x <> 0) v /\
    Forall (fun r => dotR r v = 0) rows.

(** [ws] satisfies every equation. *)
Definition solves (n : nat) (rows : list equation) (ws : list R) : Prop :=
  Forall (fun r => dotR r ws = nth n r 0) rows.

(** Three points of the plane on one line. *)
Definition collinear (p q r : R * R) : Prop :=
  (fst q - fst p) * (snd r - snd p) = (fst r - fst p) * (snd q - snd p).

End Solver.

(** ** Concrete inputs *)

Module Samples.

Import Universe.

(** [n] assets with market capitalisations 0, 1, ... and book-to-price 1. *)
Definition universe (n : nat) : list row :=
  map (fun i => mkRow i (of_nat i) (Fin 1)) (seq 0 n).

(** Raw fundamentals: four complete assets, one with a missing market
    cap, one with a negative and one with a missing book-to-price. *)
Definition fundamentals : list row :=
  [ mkRow 1 (Fin 50) (Fin (1 / 2));
    mkRow 2 NaN (Fin 1);
    mkRow 3 (Fin 70) (Fin (- 1));
    mkRow 4 (Fin 20) NaN;
    mkRow 5 (Fin 30) (Fin 2);
    mkRow 6 (Fin 10) (Fin (1 / 4));
    mkRow 7 (Fin 90) (Fin 3) ].

(** A pricing provider over three dates: the same prices for every
    asset, and for every symbol. *)
Definition three_days (ids : list nat) : Pricing.Frame :=
  Pricing.mkFrame 3 (map (fun _ => [Fin 1; Fin 2; Fin 4]) ids).

Definition three_days_symbol (symbol : string) : Pricing.Series :=
  [Fin 10; Fin 11; Fin 12].

(** Two factor series and two active-return series over three dates;
    the second active series is constant. *)
Definition factor1 : Pricing.Series := [Fin 1; Fin 2; Fin 3].
Definition factor2 : Pricing.Series := [Fin 2; Fin 1; Fin 4].
Definition active_returns : Pricing.Series := [Fin 1; Fin 3; Fin 2].
Definition flat_returns : Pricing.Series := [Fin 1; Fin 1; Fin 1].

End Samples.

(** * Properties *)

(** ** Arithmetic of the float model *)

Ltac decide_reals :=
  repeat match goal with
    | |- context [total_order_T ?a ?b] => destruct (total_order_T a b) as [[?|?]|?]
    | |- context [Req_EM_T ?a ?b] => destruct (Req_EM_T a b)
    | |- context [Rlt_dec ?a ?b] => destruct (Rlt_dec a b)
    end.

Ltac float_cases :=
  intros;
  repeat match goal with v : float64 |- _ => destruct v end;
  simpl; try reflexivity;
  repeat (progress (unfold inf_signed; decide_reals; simpl));
  try reflexivity; try (exfalso; nra); try (f_equal; ring).

(** Division by zero: an infinity with the sign of the numerator, NaN for
    0/0. *)
Lemma fdiv_by_zero :
  fdiv (Fin 1) (Fin 0) = PInf /\ fdiv (Fin (- 1)) (Fin 0) = NInf /\
  fdiv (Fin 0) (Fin 0) = NaN.
Proof.
  repeat split; simpl; unfold inf_signed; decide_reals;
    try reflexivity; exfalso; lra.
Qed.

Lemma fadd_comm (v w : float64) : fadd v w = fadd w v.
Proof. float_cases. Qed.

Lemma fmul_comm (v w : float64) : fmul v w = fmul w v.
Proof. float_cases. Qed.

Lemma fadd_0_r (v : float64) : fadd v (Fin 0) = v.
Proof. float_cases. Qed.

Lemma fmul_assoc (u v w : float64) : fmul u (fmul v w) = fmul (fmul u v) w.
Proof. float_cases. Qed.

Lemma fsub_swap_square (v w : float64) :
  fmul (fsub v w) (fsub v w) = fmul (fsub w v) (fsub w v).
Proof. unfold fsub. float_cases. Qed.

(** ** The universe and its buckets *)

Section UniverseFacts.

Import Universe.

Variable key : row -> float64.

Lemma insert_by_perm (r : row) (l : list row) :
  Permutation (insert_by key r l) (r :: l).
Proof.
  induction l as [|h t IH]; simpl.
  - apply Permutation_refl.
  - destruct (key_le (key r) (key h)).
    + apply Permutation_refl.
    + apply Permutation_trans with (h :: r :: t).
      * now apply perm_skip.
      * apply perm_swap.
Qed.

Lemma sort_perm (data : list row) : Permutation (sort key data) data.
Proof.
  induction data as [|r data IH]; simpl.
  - apply perm_nil.
  - apply Permutation_trans with (r :: sort key data).
    + apply insert_by_perm.
    + now apply perm_skip.
Qed.

Lemma sort_length (data : list row) : length (sort key data) = length data.
Proof. apply Permutation_length, sort_perm. Qed.

Lemma in_sort (data : list row) (r : row) : In r (sort key data) -> In r data.
Proof. apply Permutation_in, sort_perm. Qed.

Lemma top_length (data : list row) :
  length (skipn (7 * length data / 10) (sort key data))
  = (length data - 7 * length data / 10)%nat.
Proof. now rewrite length_skipn, sort_length. Qed.

Lemma bottom_length (data : list row) :
  length (firstn (3 * length data / 10) (sort key data))
  = (3 * length data / 10)%nat.
Proof.
  rewrite length_firstn, sort_length.
  apply Nat.min_l, Nat.Div0.div_le_upper_bound. lia.
Qed.

End UniverseFacts.

Lemma in_firstn_in {A : Type} (k : nat) (l : list A) (x : A) :
  In x (firstn k l) -> In x l.
Proof.
  intro H. rewrite <- (firstn_skipn k l). apply in_or_app. now left.
Qed.

Lemma in_skipn_in {A : Type} (k : nat) (l : list A) (x : A) :
  In x (skipn k l) -> In x l.
Proof.
  intro H. rewrite <- (firstn_skipn k l). apply in_or_app. now right.
Qed.

Lemma in_skipn_le {A : Type} (j k : nat) (l : list A) (x : A) :
  (j <= k)%nat -> In x (skipn k l) -> In x (skipn j l).
Proof.
  intros Hjk H.
  replace k with ((k - j) + j)%nat in H by lia.
  rewrite <- skipn_skipn in H. now apply in_skipn_in in H.
Qed.

Lemma firstn_skipn_disjoint {A : Type} (k : nat) (l : list A) (x : A) :
  NoDup l -> In x (firstn k l) -> In x (skipn k l) -> False.
Proof.
  revert k. induction l as [|a l IH]; intros [|k] Hnd Hf Hs; simpl in *;
    try contradiction.
  inversion Hnd as [|? ? Hnot Hnd']; subst.
  destruct Hf as [->|Hf].
  - apply Hnot. now apply in_skipn_in in Hs.
  - now apply (IH k).
Qed.

Lemma data_sound (fundamentals : list Universe.row) (r : Universe.row) :
  In r (Universe.data fundamentals) ->
  In r fundamentals /\
  isnan (Universe.market_cap r) = false /\
  isnan (Universe.book_value_yield r) = false /\
  fgt (Universe.book_value_yield r) (Fin 0) = true.
Proof.
  unfold Universe.data, Universe.positive_bp, Universe.dropna.
  rewrite !filter_In, andb_true_iff. unfold notnan.
  rewrite !negb_true_iff. tauto.
Qed.

(** With the ceiling of 0.7 N as the boundary the two buckets would always
    hold the same number of assets. *)
Lemma ceiling_balances (n : nat) :
  (n - Universe.ceil_7_10 n = 3 * n / 10)%nat.
Proof.
  unfold Universe.ceil_7_10.
  pose proof (Nat.div_mod_eq (7 * n + 9) 10).
  pose proof (Nat.div_mod_eq (3 * n) 10).
  pose proof (Nat.mod_upper_bound (7 * n + 9) 10).
  pose proof (Nat.mod_upper_bound (3 * n) 10).
  lia.
Qed.

Lemma universe_length (n : nat) : length (Samples.universe n) = n.
Proof. unfold Samples.universe. now rewrite length_map, length_seq. Qed.

(** Evaluation of float comparisons and divisions on concrete numbers. *)
Ltac float_eval :=
  repeat (simpl; unfold inf_signed; decide_reals; simpl; try (exfalso; lra)).

Lemma key_le_fin (a b : R) : a <= b -> Universe.key_le (Fin a) (Fin b) = true.
Proof.
  intro H. unfold Universe.key_le, fle, fgt. simpl.
  destruct (Rlt_dec b a); [lra | reflexivity].
Qed.

Lemma insert_by_head (key : Universe.row -> float64) (r h : Universe.row)
      (t : list Universe.row) :
  Universe.key_le (key r) (key h) = true ->
  Universe.insert_by key r (h :: t) = r :: h :: t.
Proof. intro H. simpl. now rewrite H. Qed.

Lemma sort_universe10 :
  Universe.sort Universe.market_cap (Samples.universe 10) = Samples.universe 10.
Proof.
  unfold Samples.universe, Universe.sort, of_nat.
  cbn [seq map fold_right].
  change (Universe.insert_by Universe.market_cap ?r []) with [r].
  repeat (rewrite insert_by_head by (apply key_le_fin; simpl; lra)).
  reflexivity.
Qed.

Lemma nodup_universe10 : NoDup (Universe.index (Samples.universe 10)).
Proof.
  unfold Samples.universe, Universe.index. simpl.
  repeat (constructor; [simpl; intuition lia|]). constructor.
Qed.

(** C2, as the specification states it, fails: with 11 assets the top
    bucket starts at index 7 and holds 4 assets, while the ceiling of
    0.7 * 11 is 8 and would leave 3. *)
Lemma top_bucket_not_ceiling :
  length (Universe.market_cap_top (Samples.universe 11))
  <> (length (Samples.universe 11)
      - Universe.ceil_7_10 (length (Samples.universe 11)))%nat.
Proof.
  unfold Universe.market_cap_top.
  rewrite top_length, universe_length. vm_compute. discriminate.
Qed.

(** C2 (amended): sorted ascending by the fundamental, the bottom bucket is
    the first floor(3N/10) assets and the top bucket the assets from index
    floor(7N/10) on, so it holds N - floor(7N/10) assets; N = 10 gives
    3, 3 and 4 in the middle, N = 100 gives 30, 30 and 40. *)
Theorem bucket_boundaries (data : list Universe.row) :
  let N := length data in
  Universe.market_cap_bottom data
    = firstn (3 * N / 10) (Universe.sort Universe.market_cap data) /\
  Universe.market_cap_top data
    = skipn (7 * N / 10) (Universe.sort Universe.market_cap data) /\
  Universe.bp_bottom data
    = firstn (3 * N / 10) (Universe.sort Universe.book_value_yield data) /\
  Universe.bp_top data
    = skipn (7 * N / 10) (Universe.sort Universe.book_value_yield data) /\
  length (Universe.market_cap_bottom data) = (3 * N / 10)%nat /\
  length (Universe.market_cap_top data) = (N - 7 * N / 10)%nat /\
  length (Universe.bp_bottom data) = (3 * N / 10)%nat /\
  length (Universe.bp_top data) = (N - 7 * N / 10)%nat /\
  (N = 10%nat ->
   length (Universe.market_cap_bottom data) = 3%nat /\
   length (Universe.market_cap_top data) = 3%nat /\
   (N - length (Universe.market_cap_bottom data)
      - length (Universe.market_cap_top data) = 4)%nat) /\
  (N = 100%nat ->
   length (Universe.market_cap_bottom data) = 30%nat /\
   length (Universe.market_cap_top data) = 30%nat /\
   (N - length (Universe.market_cap_bottom data)
      - length (Universe.market_cap_top data) = 40)%nat).
Proof.
  intro N. subst N.
  unfold Universe.market_cap_bottom, Universe.market_cap_top,
    Universe.bp_bottom, Universe.bp_top.
  rewrite !top_length, !bottom_length.
  repeat split; try reflexivity;
    match goal with H : length data = _ |- _ => now rewrite H end.
Qed.

Lemma bucket_boundaries_witness :
  length (Samples.universe 10) = 10%nat /\
  length (Universe.market_cap_bottom (Samples.universe 10)) = 3%nat /\
  length (Universe.market_cap_top (Samples.universe 10)) = 3%nat /\
  length (Samples.universe 100) = 100%nat /\
  length (Universe.market_cap_bottom (Samples.universe 100)) = 30%nat /\
  length (Universe.market_cap_top (Samples.universe 100)) = 30%nat.
Proof.
  pose proof (bucket_boundaries (Samples.universe 10)) as H10.
  pose proof (bucket_boundaries (Samples.universe 100)) as H100.
  cbv zeta in H10, H100.
  destruct H10 as (_ & _ & _ & _ & _ & _ & _ & _ & H10 & _).
  destruct H100 as (_ & _ & _ & _ & _ & _ & _ & _ & _ & H100).
  specialize (H10 (universe_length 10)). specialize (H100 (universe_length 100)).
  repeat split; try apply universe_length; tauto.
Defined.

(** C9: the missing-data drop and the book-to-price filter act on the
    shared frame before either ranking, so every asset of the market-cap
    buckets (and of the book-to-price buckets) has both fundamentals
    present and a strictly positive book-to-price. *)
Theorem buckets_from_filtered_universe
        (fundamentals : list Universe.row) (r : Universe.row) :
  let data := Universe.data fundamentals in
  In r (Universe.market_cap_top data) \/ In r (Universe.market_cap_bottom data) \/
  In r (Universe.bp_top data) \/ In r (Universe.bp_bottom data) ->
  In r fundamentals /\
  isnan (Universe.market_cap r) = false /\
  isnan (Universe.book_value_yield r) = false /\
  fgt (Universe.book_value_yield r) (Fin 0) = true.
Proof.
  intros data H. apply data_sound. fold data.
  unfold Universe.market_cap_top, Universe.market_cap_bottom,
    Universe.bp_top, Universe.bp_bottom in H.
  destruct H as [H|[H|[H|H]]];
    first [apply in_skipn_in in H | apply in_firstn_in in H];
    now apply in_sort in H.
Qed.

Lemma key_gt_fin (a b : R) : b < a -> Universe.key_le (Fin a) (Fin b) = false.
Proof.
  intro H. unfold Universe.key_le, fle, fgt. simpl.
  destruct (Rlt_dec b a); [reflexivity | lra].
Qed.

Lemma insert_by_skip (key : Universe.row -> float64) (r h : Universe.row)
      (t : list Universe.row) :
  Universe.key_le (key r) (key h) = false ->
  Universe.insert_by key r (h :: t) = h :: Universe.insert_by key r t.
Proof. intro H. simpl. now rewrite H. Qed.

Lemma data_fundamentals :
  Universe.data Samples.fundamentals
  = [ Universe.mkRow 1 (Fin 50) (Fin (1 / 2));
      Universe.mkRow 5 (Fin 30) (Fin 2);
      Universe.mkRow 6 (Fin 10) (Fin (1 / 4));
      Universe.mkRow 7 (Fin 90) (Fin 3) ].
Proof.
  unfold Universe.data, Universe.positive_bp, Universe.dropna,
    Samples.fundamentals.
  cbn [filter notnan isnan negb andb Universe.market_cap
       Universe.book_value_yield fgt].
  repeat match goal with
         | |- context [Rlt_dec ?a ?b] => destruct (Rlt_dec a b); try lra
         end.
  reflexivity.
Qed.

Lemma market_cap_top_fundamentals :
  Universe.market_cap_top (Universe.data Samples.fundamentals)
  = [ Universe.mkRow 1 (Fin 50) (Fin (1 / 2));
      Universe.mkRow 7 (Fin 90) (Fin 3) ].
Proof.
  rewrite data_fundamentals. unfold Universe.market_cap_top, Universe.sort.
  cbn [fold_right length].
  change (Universe.insert_by Universe.market_cap ?r []) with [r].
  repeat first
    [ rewrite insert_by_head by (apply key_le_fin; simpl; lra)
    | rewrite insert_by_skip by (apply key_gt_fin; simpl; lra)
    | change (Universe.insert_by Universe.market_cap ?r []) with [r] ].
  reflexivity.
Qed.

Lemma buckets_from_filtered_universe_witness :
  In (Universe.mkRow 7 (Fin 90) (Fin 3))
     (Universe.market_cap_top (Universe.data Samples.fundamentals)) /\
  In (Universe.mkRow 7 (Fin 90) (Fin 3)) Samples.fundamentals /\
  fgt (Fin 3) (Fin 0) = true.
Proof.
  assert (Hin : In (Universe.mkRow 7 (Fin 90) (Fin 3))
                   (Universe.market_cap_top (Universe.data Samples.fundamentals))).
  { rewrite market_cap_top_fundamentals. simpl. tauto. }
  split; [exact Hin|].
  pose proof (buckets_from_filtered_universe Samples.fundamentals _
                (or_introl Hin)) as (H1 & _ & _ & H4).
  split; [exact H1 | exact H4].
Defined.

(** C10: floor(3N/10) never exceeds floor(7N/10), so in a universe whose
    asset identifiers are distinct no asset of a bottom bucket is in the
    top bucket of the same ranking. *)
Theorem buckets_disjoint (data : list Universe.row) :
  (3 * length data / 10 <= 7 * length data / 10)%nat /\
  (NoDup (Universe.index data) ->
   forall s : nat,
     (In s (Universe.index (Universe.market_cap_bottom data)) ->
      ~ In s (Universe.index (Universe.market_cap_top data))) /\
     (In s (Universe.index (Universe.bp_bottom data)) ->
      ~ In s (Universe.index (Universe.bp_top data)))).
Proof.
  assert (Hle : (3 * length data / 10 <= 7 * length data / 10)%nat).
  { apply Nat.Div0.div_le_mono. lia. }
  split; [exact Hle|].
  intros Hnd s.
  assert (Hkey : forall key,
             In s (Universe.index (firstn (3 * length data / 10)
                                          (Universe.sort key data))) ->
             ~ In s (Universe.index (skipn (7 * length data / 10)
                                           (Universe.sort key data)))).
  { intros key Hb Ht. unfold Universe.index in Hb, Ht.
    rewrite <- firstn_map in Hb. rewrite <- skipn_map in Ht.
    apply (in_skipn_le _ _ _ _ Hle) in Ht.
    apply (firstn_skipn_disjoint (3 * length data / 10)
             (map Universe.sid (Universe.sort key data)) s); try assumption.
    apply Permutation_NoDup with (l := Universe.index data); [|exact Hnd].
    apply Permutation_map, Permutation_sym, sort_perm. }
  split; apply Hkey.
Qed.

Lemma buckets_disjoint_witness :
  NoDup (Universe.index (Samples.universe 10)) /\
  In 1%nat (Universe.index (Universe.market_cap_bottom (Samples.universe 10))) /\
  ~ In 1%nat (Universe.index (Universe.market_cap_top (Samples.universe 10))).
Proof.
  assert (Hin : In 1%nat (Universe.index
                            (Universe.market_cap_bottom (Samples.universe 10)))).
  { unfold Universe.market_cap_bottom. rewrite sort_universe10.
    unfold Samples.universe. simpl. tauto. }
  split; [exact nodup_universe10|]. split; [exact Hin|].
  exact (proj1 (proj2 (buckets_disjoint (Samples.universe 10))
                      nodup_universe10 1%nat) Hin).
Defined.

(** ** Return series *)

Lemma zip_with_length {A B C : Type} (f : A -> B -> C) (xs : list A) (ys : list B) :
  length (zip_with f xs ys) = Nat.min (length xs) (length ys).
Proof.
  revert ys. induction xs as [|x xs IH]; intros [|y ys]; simpl; auto.
Qed.

Lemma pad_from_length (last : float64) (xs : Pricing.Series) :
  length (Pricing.pad_from last xs) = length xs.
Proof.
  revert last. induction xs as [|x xs IH]; intro last; simpl; auto.
Qed.

Lemma shift1_length (xs : Pricing.Series) :
  length (Pricing.shift1 xs) = length xs.
Proof.
  unfold Pricing.shift1. rewrite length_firstn. simpl. lia.
Qed.

Lemma pct_change_length (xs : Pricing.Series) :
  length (Pricing.pct_change xs) = length xs.
Proof.
  unfold Pricing.pct_change, Pricing.pad.
  rewrite !zip_with_length, shift1_length, pad_from_length. lia.
Qed.

Lemma returns_length (prices : Pricing.Series) :
  length (Pricing.drop_first (Pricing.pct_change prices))
  = (length prices - 1)%nat.
Proof.
  unfold Pricing.drop_first. now rewrite length_skipn, pct_change_length.
Qed.

Lemma series_sub_length (xs ys : Pricing.Series) :
  length (Pricing.series_sub xs ys) = Nat.max (length xs) (length ys).
Proof.
  revert ys. induction xs as [|x xs IH]; intros [|y ys]; simpl; auto.
  - now rewrite length_map.
  - now rewrite length_map.
Qed.

Lemma bucket_mean_length (prices : Pricing.Frame) :
  length (Pricing.bucket_mean prices) = (Pricing.nrows prices - 1)%nat.
Proof.
  unfold Pricing.bucket_mean, Pricing.np_mean, Pricing.frame_dropna,
    Pricing.transpose, Pricing.frame_drop_first, Pricing.frame_pct_change.
  simpl. now rewrite !length_map, length_seq.
Qed.

Lemma pct_change_first (p : float64) (prices : Pricing.Series) :
  Pricing.pct_change (p :: prices)
  = NaN :: Pricing.drop_first (Pricing.pct_change (p :: prices)).
Proof.
  unfold Pricing.pct_change, Pricing.pad, Pricing.shift1, Pricing.drop_first.
  simpl. f_equal. destruct p; reflexivity.
Qed.

(** The returns of the prices 1, 2, 4: undefined, then 100% twice. *)
Lemma pct_change_doubling :
  Pricing.pct_change [Fin 1; Fin 2; Fin 4] = [NaN; Fin 1; Fin 1].
Proof.
  unfold Pricing.pct_change, Pricing.pad, Pricing.shift1, fsub.
  float_eval. repeat f_equal; field.
Qed.

(** A missing price is padded, and its own return is undefined. *)
Lemma pct_change_missing :
  Pricing.pct_change [Fin 1; NaN; Fin 2] = [NaN; NaN; Fin 1].
Proof.
  unfold Pricing.pct_change, Pricing.pad, Pricing.shift1, fsub.
  float_eval. repeat f_equal; field.
Qed.

(** Two assets with the prices 1, 2, 4: the bucket's mean return is 100%
    on both dates; a bucket without assets has an undefined mean. *)
Lemma bucket_mean_three_days :
  Pricing.bucket_mean (Samples.three_days [1%nat; 2%nat]) = [Fin 1; Fin 1] /\
  Pricing.bucket_mean (Samples.three_days []) = [NaN; NaN].
Proof.
  split.
  - unfold Pricing.bucket_mean, Samples.three_days, Pricing.frame_pct_change.
    cbn [map Pricing.columns Pricing.nrows]. rewrite pct_change_doubling.
    unfold Pricing.np_mean, Pricing.frame_dropna, Pricing.complete_rows,
      Pricing.transpose, Pricing.frame_drop_first, Pricing.nanmean, of_nat.
    float_eval. repeat f_equal; field.
  - unfold Pricing.bucket_mean, Pricing.np_mean, Pricing.frame_dropna,
      Pricing.complete_rows, Pricing.transpose, Pricing.frame_drop_first,
      Pricing.nanmean, of_nat.
    float_eval. reflexivity.
Qed.

(** C7: a price series of N observations gives N - 1 returns (the
    undefined first one is dropped), and so each factor series and the
    active-return series have one observation less than the price
    history they are built from. *)
Theorem return_series_length :
  (forall prices : Pricing.Series,
      length (Pricing.drop_first (Pricing.pct_change prices))
      = (length prices - 1)%nat) /\
  (forall (p : float64) (prices : Pricing.Series),
      Pricing.pct_change (p :: prices)
      = NaN :: Pricing.drop_first (Pricing.pct_change (p :: prices))) /\
  (forall (get_pricing : list nat -> Pricing.Frame) (N : nat),
      (forall ids, Pricing.nrows (get_pricing ids) = N) ->
      forall data : list Universe.row,
        length (Pricing.f1 get_pricing data) = (N - 1)%nat /\
        length (Pricing.f2 get_pricing data) = (N - 1)%nat) /\
  (forall (get_pricing_symbol : string -> Pricing.Series) (N : nat),
      length (get_pricing_symbol "HSC"%string) = N ->
      length (get_pricing_symbol "SPY"%string) = N ->
      length (Pricing.asset get_pricing_symbol) = (N - 1)%nat /\
      length (Pricing.bench get_pricing_symbol) = (N - 1)%nat /\
      length (Pricing.active get_pricing_symbol) = (N - 1)%nat).
Proof.
  split; [exact returns_length|]. split; [exact pct_change_first|]. split.
  - intros get_pricing N HN data. unfold Pricing.f1, Pricing.f2.
    rewrite !series_sub_length, !bucket_mean_length, !HN. lia.
  - intros gps N Ha Hb. unfold Pricing.active, Pricing.asset, Pricing.bench.
    rewrite series_sub_length, !returns_length, Ha, Hb. lia.
Qed.

Lemma return_series_length_witness :
  length (Pricing.f1 Samples.three_days (Samples.universe 10)) = 2%nat /\
  length (Pricing.f2 Samples.three_days (Samples.universe 10)) = 2%nat /\
  length (Pricing.active Samples.three_days_symbol) = 2%nat.
Proof.
  destruct return_series_length as (_ & _ & Hf & Ha).
  destruct (Hf Samples.three_days 3%nat (fun _ => eq_refl) (Samples.universe 10))
    as [H1 H2].
  destruct (Ha Samples.three_days_symbol 3%nat eq_refl eq_refl)
    as (_ & _ & H3).
  repeat split; assumption.
Defined.

(** ** Covariance and variance estimators *)

Lemma zip_with_map {A B A' B' C : Type} (f : A' -> B' -> C)
      (g : A -> A') (h : B -> B') (xs : list A) (ys : list B) :
  zip_with f (map g xs) (map h ys) = zip_with (fun x y => f (g x) (h y)) xs ys.
Proof.
  revert ys. induction xs as [|x xs IH]; intros [|y ys]; simpl; auto.
  now rewrite IH.
Qed.

Lemma zip_with_swap {A B C : Type} (f : A -> B -> C) (xs : list A) (ys : list B) :
  zip_with f xs ys = zip_with (fun y x => f x y) ys xs.
Proof.
  revert ys. induction xs as [|x xs IH]; intros [|y ys]; simpl; auto.
  now rewrite IH.
Qed.

Lemma zip_with_diag {A C : Type} (f : A -> A -> C) (xs : list A) :
  zip_with f xs xs = map (fun x => f x x) xs.
Proof. induction xs as [|x xs IH]; simpl; auto. now rewrite IH. Qed.

Lemma zip_with_ext {A B C : Type} (f g : A -> B -> C) (xs : list A) (ys : list B) :
  (forall x y, f x y = g x y) -> zip_with f xs ys = zip_with g xs ys.
Proof.
  intro H. revert ys. induction xs as [|x xs IH]; intros [|y ys]; simpl; auto.
  now rewrite H, IH.
Qed.

Section Estimators.

Import Pricing Attribution.

Lemma filter_complete (xs : Series) : complete xs -> filter notnan xs = xs.
Proof.
  induction 1 as [|x xs Hx _ IH]; simpl; auto. now rewrite Hx, IH.
Qed.

(** The centred value of a single observation is zero, or NaN when the
    observation is not finite. *)
Lemma center_single (a : float64) :
  center [a] = [Fin 0] \/ center [a] = [NaN].
Proof.
  unfold center, array_mean, of_nat, fsub. simpl.
  destruct a; simpl; auto.
  - destruct (Req_EM_T 1 0); [lra|]. simpl. left. do 2 f_equal. field.
  - destruct (Rlt_dec 1 0); [lra|]. simpl. auto.
  - destruct (Rlt_dec 1 0); [lra|]. simpl. auto.
Qed.

Lemma dot_center_single (a b : float64) :
  fdiv (dot (center [a]) (center [b])) (Fin 0) = NaN.
Proof.
  destruct (center_single a) as [-> | ->], (center_single b) as [-> | ->];
    unfold dot; simpl; try reflexivity.
  destruct (Req_EM_T 0 0); [|lra]. unfold inf_signed.
  destruct (total_order_T 0 (0 * 0 + 0)) as [[?|?]|?]; try lra. reflexivity.
Qed.

(** An entry of numpy's covariance matrix is the sample covariance. *)
Lemma cov_entry_spec (ddof : nat) (xs ys : Series) :
  ddof = 1%nat -> length xs = length ys ->
  fdiv (dot (center xs) (center ys)) (cov_fact (length xs) ddof)
  = estimator_cov ddof xs ys.
Proof.
  intros -> Hlen. unfold estimator_cov, cov_fact.
  destruct (length xs <=? 1)%nat eqn:Hn.
  - apply Nat.leb_le in Hn.
    destruct xs as [|a [|a' xs]]; simpl in Hn; try lia;
      destruct ys as [|b [|b' ys]]; simpl in Hlen; try discriminate.
    + unfold dot. simpl. destruct (Req_EM_T 0 0); [|lra].
      unfold inf_signed.
      destruct (total_order_T 0 0) as [[?|?]|?]; try lra. reflexivity.
    + apply dot_center_single.
  - unfold dot, center. now rewrite zip_with_map.
Qed.

Lemma estimator_cov_sym (ddof : nat) (xs ys : Series) :
  length xs = length ys ->
  estimator_cov ddof xs ys = estimator_cov ddof ys xs.
Proof.
  intro Hlen. unfold estimator_cov. rewrite <- Hlen.
  destruct (length xs <=? ddof)%nat; [reflexivity|].
  f_equal. f_equal. rewrite zip_with_swap.
  apply zip_with_ext. intros. apply fmul_comm.
Qed.

Lemma nonneg_square (v : float64) : nonneg (fmul v v).
Proof.
  destruct v; simpl; auto. nra.
Qed.

Lemma nonneg_fadd (v w : float64) : nonneg v -> nonneg w -> nonneg (fadd v w).
Proof.
  destruct v, w; simpl; auto; try contradiction. lra.
Qed.

Lemma nonneg_sum_squares (g : float64 -> float64) (xs : Series) :
  nonneg (fsum (map (fun x => fsquare (g x)) xs)).
Proof.
  induction xs as [|x xs IH]; simpl.
  - lra.
  - apply nonneg_fadd; [apply nonneg_square | exact IH].
Qed.

Lemma nonneg_fdiv (v : float64) (d : R) :
  0 < d -> nonneg v -> nonneg (fdiv v (Fin d)).
Proof.
  intros Hd Hv. destruct v; simpl in *; try contradiction; auto.
  - destruct (Req_EM_T d 0); [lra|]. simpl.
    apply Rmult_le_pos; [exact Hv|]. left. now apply Rinv_0_lt_compat.
  - destruct (Rlt_dec d 0); [lra|]. exact I.
Qed.

Lemma fsqrt_square (v : float64) : nonneg v -> fsquare (fsqrt v) = v.
Proof.
  destruct v; simpl; auto; try contradiction.
  intro Hx. destruct (Rlt_dec x 0); [lra|]. unfold fsquare. simpl.
  now rewrite sqrt_sqrt.
Qed.

(** pandas' variance is the same estimator, over the observations
    present. *)
Lemma nanvar_observed (xs : Series) :
  nanvar 1 xs = estimator_cov 1 (filter notnan xs) (filter notnan xs).
Proof.
  unfold nanvar, estimator_cov.
  destruct (length (filter notnan xs) <=? 1)%nat eqn:Hn; [reflexivity|].
  apply Nat.leb_gt in Hn.
  rewrite zip_with_diag. unfold of_nat. rewrite minus_INR by lia.
  f_equal. f_equal. apply map_ext. intro x. unfold fsquare.
  apply fsub_swap_square.
Qed.

Lemma nanvar_spec (xs : Series) :
  complete xs -> nanvar 1 xs = estimator_cov 1 xs xs.
Proof.
  intro Hc. rewrite nanvar_observed. now rewrite (filter_complete _ Hc).
Qed.

Lemma nanvar_nonneg (xs : Series) : nonneg (nanvar 1 xs).
Proof.
  unfold nanvar.
  destruct (length (filter notnan xs) <=? 1)%nat eqn:Hn; [exact I|].
  apply Nat.leb_gt in Hn. apply nonneg_fdiv.
  - apply lt_INR in Hn. simpl in *. lra.
  - apply (nonneg_sum_squares
             (fun x => fsub (fdiv (fsum (filter notnan xs))
                                  (of_nat (length (filter notnan xs)))) x)).
Qed.

(** Squaring the standard deviation gives the variance back. *)
Lemma ar_squared_nanvar (xs : Series) : ar_squared xs = nanvar 1 xs.
Proof. apply fsqrt_square, nanvar_nonneg. Qed.

Lemma ar_squared_spec (xs : Series) :
  complete xs -> ar_squared xs = sample_var xs.
Proof.
  intro Hc. rewrite ar_squared_nanvar. now apply nanvar_spec.
Qed.

Lemma np_cov_ok (f1 f2 : Series) :
  length f1 = length f2 ->
  np_cov f1 f2
  = Ok [ [ sample_cov f1 f1; sample_cov f1 f2 ];
         [ sample_cov f2 f1; sample_cov f2 f2 ] ].
Proof.
  intro Hlen. unfold np_cov, np_cov_ddof, same_length, gram. simpl.
  rewrite Hlen, Nat.eqb_refl. simpl. unfold sample_cov.
  rewrite <- !cov_entry_spec by (auto; lia).
  now rewrite Hlen.
Qed.

Lemma np_cov_mismatch (f1 f2 : Series) :
  length f1 <> length f2 -> np_cov f1 f2 = Raise ValueError.
Proof.
  intro Hlen. unfold np_cov, np_cov_ddof, same_length. simpl.
  apply Nat.eqb_neq in Hlen. rewrite Nat.eqb_sym in Hlen. now rewrite Hlen.
Qed.

End Estimators.

(** ** FMCAR *)

Section Fmcar.

Import Pricing Attribution.

Ltac estimator_eval :=
  unfold sample_var, sample_cov, estimator_cov, array_mean, of_nat, fsub,
    Samples.factor1, Samples.factor2, Samples.active_returns,
    Samples.flat_returns;
  float_eval.

Lemma flat_returns_variance : sample_var Samples.flat_returns = Fin 0.
Proof. estimator_eval. f_equal. field. Qed.

Lemma flat_returns_complete : complete Samples.flat_returns.
Proof. repeat constructor. Qed.

Lemma active_returns_complete : complete Samples.active_returns.
Proof. repeat constructor. Qed.

Lemma factors_covariance : sample_cov Samples.factor1 Samples.factor2 = Fin 1.
Proof. estimator_eval. f_equal. field. Qed.

Lemma fadd_zero_l (c : R) (v : float64) : fadd (Fin (0 * c)) v = v.
Proof. destruct v; simpl; auto. f_equal. ring. Qed.

(** Dividing by a zero variance never raises and never gives a number. *)
Lemma fdiv_zero_not_finite (v : float64) : isfinite (fdiv v (Fin 0)) = false.
Proof.
  destruct v; simpl; auto.
  - destruct (Req_EM_T 0 0); [|lra]. unfold inf_signed.
    destruct (total_order_T 0 x) as [[?|?]|?]; reflexivity.
  - destruct (Rlt_dec 0 0); reflexivity.
  - destruct (Rlt_dec 0 0); reflexivity.
Qed.

(** C1: for two factor series of one length and an active-return series
    without missing observations, cell 7 returns
    [b1*(b1*Cov(F1,F1) + b2*Cov(F1,F2))/Var(active)] and
    [b2*(b1*Cov(F2,F1) + b2*Cov(F2,F2))/Var(active)], with the sample
    covariance and the sample variance, whatever the sensitivities. *)
Theorem cell7_fmcar (f1 f2 active : Series) (b1 b2 : float64) :
  length f1 = length f2 ->
  complete active ->
  cell7 f1 f2 active b1 b2
  = Ok (fdiv (fmul b1 (fadd (fmul b1 (sample_cov f1 f1))
                            (fmul b2 (sample_cov f1 f2))))
             (sample_var active),
        fdiv (fmul b2 (fadd (fmul b1 (sample_cov f2 f1))
                            (fmul b2 (sample_cov f2 f2))))
             (sample_var active)).
Proof.
  intros Hlen Hc. unfold cell7. rewrite (np_cov_ok _ _ Hlen).
  unfold bind, fmcar1, fmcar2, entry. cbn [nth].
  rewrite (ar_squared_spec _ Hc).
  unfold sample_cov. rewrite (estimator_cov_sym 1 f2 f1) by auto.
  now rewrite (fadd_comm (fmul b2 _) (fmul b1 _)).
Qed.

Lemma cell7_fmcar_witness :
  cell7 Samples.factor1 Samples.factor2 Samples.active_returns (Fin 1) (Fin 2)
  = Ok (fdiv (fmul (Fin 1)
                (fadd (fmul (Fin 1) (sample_cov Samples.factor1 Samples.factor1))
                      (fmul (Fin 2) (sample_cov Samples.factor1 Samples.factor2))))
             (sample_var Samples.active_returns),
        fdiv (fmul (Fin 2)
                (fadd (fmul (Fin 1) (sample_cov Samples.factor2 Samples.factor1))
                      (fmul (Fin 2) (sample_cov Samples.factor2 Samples.factor2))))
             (sample_var Samples.active_returns)).
Proof.
  apply (cell7_fmcar Samples.factor1 Samples.factor2 Samples.active_returns
           (Fin 1) (Fin 2)).
  - reflexivity.
  - repeat constructor.
Defined.

(** C4, as the specification states it, fails: on a constant
    active-return series the variance is zero and cell 7 raises nothing;
    it returns NaN for both factors. *)
Lemma zero_variance_returns_nan :
  ar_squared Samples.flat_returns = Fin 0 /\
  cell7 Samples.factor1 Samples.factor2 Samples.flat_returns (Fin 0) (Fin 0)
  = Ok (NaN, NaN).
Proof.
  assert (Har : ar_squared Samples.flat_returns = Fin 0).
  { rewrite (ar_squared_spec _ flat_returns_complete).
    apply flat_returns_variance. }
  split; [exact Har|].
  unfold cell7. rewrite np_cov_ok by reflexivity. unfold bind, fmcar1, fmcar2, entry.
  cbn [nth]. rewrite Har. estimator_eval. reflexivity.
Qed.

(** C4 (amended): when the variance of the active returns is zero, cell 7
    raises no error: numpy's division returns, for each factor, a value
    that is not finite (an infinity or NaN). *)
Theorem zero_variance_not_signalled (f1 f2 active : Series) (b1 b2 : float64) :
  length f1 = length f2 ->
  ar_squared active = Fin 0 ->
  exists v1 v2 : float64,
    cell7 f1 f2 active b1 b2 = Ok (v1, v2) /\
    isfinite v1 = false /\ isfinite v2 = false.
Proof.
  intros Hlen Har. unfold cell7. rewrite (np_cov_ok _ _ Hlen).
  unfold bind, fmcar1, fmcar2. rewrite Har.
  eexists. eexists. split; [reflexivity|].
  split; apply fdiv_zero_not_finite.
Qed.

Lemma zero_variance_not_signalled_witness :
  exists v1 v2 : float64,
    cell7 Samples.factor1 Samples.factor2 Samples.flat_returns (Fin 1) (Fin 2)
    = Ok (v1, v2) /\
    isfinite v1 = false /\ isfinite v2 = false.
Proof.
  apply (zero_variance_not_signalled Samples.factor1 Samples.factor2
           Samples.flat_returns (Fin 1) (Fin 2)).
  - reflexivity.
  - rewrite (ar_squared_spec _ flat_returns_complete).
    apply flat_returns_variance.
Defined.

(** C5: with a single factor the formula is
    [b1^2 * Var(F1) / Var(active)]; cell 7 gives the same for its first
    factor when the asset has no exposure to the second one. *)
Theorem single_factor_fmcar (b1 : float64) (F1 active : Series) :
  complete active ->
  FMCAR [b1] [F1] active 0
  = Ok (fdiv (fmul (fmul b1 b1) (sample_var F1)) (sample_var active)) /\
  (forall F2 : Series,
      length F1 = length F2 ->
      isfinite (sample_cov F1 F2) = true ->
      exists fmcar2 : float64,
        cell7 F1 F2 active b1 (Fin 0)
        = Ok (fdiv (fmul (fmul b1 b1) (sample_var F1)) (sample_var active),
              fmcar2)).
Proof.
  intro Hc. split.
  - unfold FMCAR, np_cov_ddof, same_length, gram, bind, entry.
    cbn [forallb map hd length seq nth].
    rewrite (cov_entry_spec 1 F1 F1) by auto.
    rewrite (ar_squared_spec _ Hc). cbn [fsum fold_right].
    now rewrite fadd_0_r, fmul_assoc.
  - intros F2 Hlen Hfin. unfold cell7. rewrite (np_cov_ok _ _ Hlen).
    unfold bind, fmcar1, fmcar2, entry. cbn [nth]. rewrite (ar_squared_spec _ Hc).
    eexists. f_equal. f_equal. f_equal.
    destruct (sample_cov F1 F2) as [c| | |]; try discriminate.
    cbn [fmul]. now rewrite fadd_zero_l, fmul_assoc.
Qed.

Lemma single_factor_fmcar_witness :
  FMCAR [Fin 2] [Samples.factor1] Samples.active_returns 0
  = Ok (fdiv (fmul (fmul (Fin 2) (Fin 2)) (sample_var Samples.factor1))
             (sample_var Samples.active_returns)) /\
  exists fmcar2 : float64,
    cell7 Samples.factor1 Samples.factor2 Samples.active_returns (Fin 2) (Fin 0)
    = Ok (fdiv (fmul (fmul (Fin 2) (Fin 2)) (sample_var Samples.factor1))
               (sample_var Samples.active_returns),
          fmcar2).
Proof.
  destruct (single_factor_fmcar (Fin 2) Samples.factor1 Samples.active_returns
              active_returns_complete) as [H1 H2].
  split; [exact H1|].
  apply (H2 Samples.factor2 eq_refl).
  rewrite factors_covariance. reflexivity.
Defined.

(** C6: numpy's covariance matrix of the factors and the squared pandas
    standard deviation of the active returns are the same estimator, the
    one with [n - 1] in the denominator; applied to one series they
    agree. *)
Theorem consistent_normalization (f1 f2 active : Series) :
  length f1 = length f2 ->
  complete active ->
  (exists cov,
      np_cov f1 f2 = Ok cov /\
      entry cov 0 0 = estimator_cov 1 f1 f1 /\
      entry cov 0 1 = estimator_cov 1 f1 f2 /\
      entry cov 1 0 = estimator_cov 1 f2 f1 /\
      entry cov 1 1 = estimator_cov 1 f2 f2) /\
  ar_squared active = estimator_cov 1 active active /\
  (exists cov,
      np_cov active active = Ok cov /\ entry cov 0 0 = ar_squared active).
Proof.
  intros Hlen Hc. split; [|split].
  - eexists. split; [apply (np_cov_ok _ _ Hlen)|]. repeat split.
  - apply (ar_squared_spec _ Hc).
  - eexists. split; [apply np_cov_ok; reflexivity|].
    unfold entry. cbn [nth]. symmetry. apply (ar_squared_spec _ Hc).
Qed.

Lemma consistent_normalization_witness :
  ar_squared Samples.active_returns
  = estimator_cov 1 Samples.active_returns Samples.active_returns /\
  exists cov,
    np_cov Samples.active_returns Samples.active_returns = Ok cov /\
    entry cov 0 0 = ar_squared Samples.active_returns.
Proof.
  exact (proj2 (consistent_normalization Samples.factor1 Samples.factor2
                  Samples.active_returns eq_refl active_returns_complete)).
Defined.

End Fmcar.

(** ** The tracking portfolio *)

(** C3: the three equations of the worked example have exactly one
    solution, [w = (1/3, 1/6, 1/2)]. *)
Theorem tracking_example_solution (w1 w2 w3 : R) :
  Tracking.tracking_system w1 w2 w3 <-> w1 = 1 / 3 /\ w2 = 1 / 6 /\ w3 = 1 / 2.
Proof.
  unfold Tracking.tracking_system, Tracking.benchmark, Tracking.b11,
    Tracking.b12, Tracking.b21, Tracking.b22, Tracking.b31, Tracking.b32.
  simpl. split.
  - intros (H1 & H2 & H3). repeat split; lra.
  - intros (-> & -> & ->). repeat split; lra.
Qed.

Section SolverFacts.

Import Solver.

Lemma find_pivot_some (rows : list equation) (p : equation) (rest : list equation) :
  find_pivot rows = Some (p, rest) ->
  hd 0 p <> 0 /\ Permutation rows (p :: rest).
Proof.
  revert p rest. induction rows as [|r rows IH]; intros p rest; simpl.
  - discriminate.
  - destruct (Req_EM_T (hd 0 r) 0) as [Hz|Hnz].
    + destruct (find_pivot rows) as [[p' rest']|]; [|discriminate].
      intro H. injection H as <- <-.
      destruct (IH p' rest' eq_refl) as [Hp Hperm]. split; [exact Hp|].
      apply Permutation_trans with (r :: p' :: rest').
      * now apply perm_skip.
      * apply perm_swap.
    + intro H. injection H as <- <-. split; [exact Hnz|].
      apply Permutation_refl.
Qed.

Lemma find_pivot_none (rows : list equation) :
  find_pivot rows = None -> Forall (fun r => hd 0 r = 0) rows.
Proof.
  induction rows as [|r rows IH]; simpl; intro H.
  - constructor.
  - destruct (Req_EM_T (hd 0 r) 0) as [Hz|Hnz]; [|discriminate].
    destruct (find_pivot rows) as [[p' rest']|]; [discriminate|].
    constructor; auto.
Qed.

Lemma dotR_combine (c : R) (p r v : list R) :
  (length v <= length p)%nat -> (length v <= length r)%nat ->
  dotR (zip_with (fun x y => y - c * x) p r) v = dotR r v - c * dotR p v.
Proof.
  revert p r. induction v as [|a v IH]; intros [|x p] [|y r] Hp Hr;
    simpl in *; try lia; try ring.
  rewrite IH by lia. ring.
Qed.

Lemma dotR_eliminate (p1 r1 : R) (p r v : list R) :
  (length v <= length p)%nat -> (length v <= length r)%nat ->
  dotR (eliminate (p1 :: p) (r1 :: r)) v = dotR r v - r1 / p1 * dotR p v.
Proof. intros. unfold eliminate. simpl. now apply dotR_combine. Qed.

Lemma dotR_zero_r (r v : list R) : Forall (fun x => x = 0) v -> dotR r v = 0.
Proof.
  intro H. revert r. induction H as [|a v Ha _ IH]; intros [|x r]; simpl; auto.
  rewrite IH, Ha. ring.
Qed.

Lemma zero_or_not (v : list R) :
  Forall (fun x => x = 0) v \/ Exists (fun x => x <> 0) v.
Proof.
  induction v as [|a v [IH|IH]].
  - left. constructor.
  - destruct (Req_dec a 0) as [Ha|Ha].
    + left. now constructor.
    + right. now constructor.
  - right. now apply Exists_cons_tl.
Qed.

Lemma eliminate_length (n : nat) (p r : equation) :
  length p = S (S n) -> length r = S (S n) -> length (eliminate p r) = S n.
Proof.
  intros Hp Hr. unfold eliminate. rewrite zip_with_length.
  destruct p, r; simpl in *; lia.
Qed.

Lemma shaped_eliminate (n : nat) (p : equation) (rest : list equation) :
  shaped (S n) (p :: rest) -> shaped n (map (eliminate p) rest).
Proof.
  unfold shaped. intro H. inversion H as [|? ? Hp Hrest]; subst.
  apply Forall_map. apply Forall_impl with (2 := Hrest).
  intros r Hr. now apply eliminate_length.
Qed.

(** A null vector of the system gives one of the reduced system. *)
Lemma singular_eliminate (n : nat) (p : equation) (rest : list equation) :
  hd 0 p <> 0 -> shaped (S n) (p :: rest) ->
  singular (S n) (p :: rest) -> singular n (map (eliminate p) rest).
Proof.
  intros Hp Hshape (v & Hlen & Hnz & Hnull).
  destruct v as [|v1 v]; [discriminate|]. injection Hlen as Hlen.
  inversion Hshape as [|? ? Hplen Hrest]; subst.
  inversion Hnull as [|? ? Hpnull Hrnull]; subst.
  destruct p as [|p1 p]; [discriminate|]. simpl in Hp, Hpnull.
  injection Hplen as Hplen.
  exists v. split; [reflexivity|]. split.
  - destruct (zero_or_not v) as [Hz|Hex]; [|exact Hex]. exfalso.
    rewrite (dotR_zero_r p v Hz) in Hpnull.
    inversion Hnz as [? ? Hv1|? ? Hv]; subst.
    + apply Hv1. apply (Rmult_eq_reg_l p1); [|exact Hp]. lra.
    + apply Exists_exists in Hv. destruct Hv as (x & Hx & Hxnz).
      rewrite Forall_forall in Hz. now apply Hxnz, Hz.
  - apply Forall_map. rewrite Forall_forall in *. intros r Hr.
    specialize (Hrest r Hr). specialize (Hrnull r Hr).
    destruct r as [|r1 r]; [discriminate|]. injection Hrest as Hrest.
    simpl in Hrnull. rewrite dotR_eliminate by lia.
    field_simplify; [|exact Hp].
    replace (dotR r v) with (- (r1 * v1)) by lra.
    replace (dotR p v) with (- (p1 * v1)) by lra.
    field. exact Hp.
Qed.

Lemma singular_perm (n : nat) (rows rows' : list equation) :
  Permutation rows rows' -> singular n rows -> singular n rows'.
Proof.
  intros Hperm (v & Hlen & Hnz & Hnull). exists v. repeat split; auto.
  rewrite Forall_forall in *. intros r Hr. apply Hnull.
  now apply Permutation_in with (1 := Permutation_sym Hperm).
Qed.

Lemma shaped_perm (n : nat) (rows rows' : list equation) :
  Permutation rows rows' -> shaped n rows -> shaped n rows'.
Proof.
  unfold shaped. intros Hperm H. rewrite Forall_forall in *. intros r Hr.
  apply H. now apply Permutation_in with (1 := Permutation_sym Hperm).
Qed.

(** The solver raises on every singular system. *)
Lemma solve_singular (n : nat) (rows : list equation) :
  shaped n rows -> singular n rows -> solve n rows = Raise NoUniqueSolution.
Proof.
  revert rows. induction n as [|n IH]; intros rows Hshape Hsing.
  - destruct Hsing as (v & Hlen & Hnz & _).
    destruct v; [|discriminate]. inversion Hnz.
  - simpl. destruct (find_pivot rows) as [[p rest]|] eqn:Hpiv; [|reflexivity].
    destruct (find_pivot_some _ _ _ Hpiv) as [Hp Hperm].
    apply (shaped_perm _ _ _ Hperm) in Hshape.
    apply (singular_perm _ _ _ Hperm) in Hsing.
    rewrite (IH (map (eliminate p) rest)).
    + reflexivity.
    + now apply shaped_eliminate.
    + now apply singular_eliminate.
Qed.

End SolverFacts.

Section SolverAdequacy.

Import Solver.

Lemma nth_zip_with {A B C : Type} (f : A -> B -> C) (xs : list A) (ys : list B)
      (k : nat) (d : C) (dx : A) (dy : B) :
  (k < length xs)%nat -> (k < length ys)%nat ->
  nth k (zip_with f xs ys) d = f (nth k xs dx) (nth k ys dy).
Proof.
  revert xs ys. induction k as [|k IH]; intros [|x xs] [|y ys] Hx Hy;
    simpl in *; try lia; auto.
  apply IH; lia.
Qed.

(** A null vector of the reduced system lifts to the system. *)
Lemma singular_lift (n : nat) (p : equation) (rest : list equation) :
  hd 0 p <> 0 -> shaped (S n) (p :: rest) ->
  singular n (map (eliminate p) rest) -> singular (S n) (p :: rest).
Proof.
  intros Hp Hshape (v & Hlen & Hnz & Hnull).
  inversion Hshape as [|? ? Hplen Hrest]; subst.
  destruct p as [|p1 p]; [discriminate|]. simpl in Hp.
  injection Hplen as Hplen.
  exists (- dotR p v / p1 :: v). split; [reflexivity|]. split.
  - now apply Exists_cons_tl.
  - constructor.
    + simpl. field. exact Hp.
    + rewrite Forall_map in Hnull. rewrite Forall_forall in *.
      intros r Hr. specialize (Hrest r Hr). specialize (Hnull r Hr).
      destruct r as [|r1 r]; [discriminate|]. injection Hrest as Hrest.
      rewrite dotR_eliminate in Hnull by lia. simpl.
      replace (dotR r v) with (r1 / p1 * dotR p v) by lra.
      field. exact Hp.
Qed.

(** The solver raises only on singular systems. *)
Lemma solve_raise (n : nat) (rows : list equation) (e : exn) :
  shaped n rows -> solve n rows = Raise e ->
  e = NoUniqueSolution /\ singular n rows.
Proof.
  revert rows. induction n as [|n IH]; intros rows Hshape; simpl.
  - discriminate.
  - destruct (find_pivot rows) as [[p rest]|] eqn:Hpiv.
    + destruct (find_pivot_some _ _ _ Hpiv) as [Hp Hperm].
      pose proof (shaped_perm _ _ _ Hperm Hshape) as Hshape'.
      destruct (solve n (map (eliminate p) rest)) as [ws|e'] eqn:Hrec;
        simpl; [discriminate|].
      intro H. injection H as <-.
      destruct (IH _ (shaped_eliminate _ _ _ Hshape') Hrec) as [He Hsing].
      split; [exact He|].
      apply (singular_perm _ _ _ (Permutation_sym Hperm)).
      now apply singular_lift.
    + intro H. injection H as <-. split; [reflexivity|].
      exists (1 :: repeat 0 n). split; [simpl; now rewrite repeat_length|].
      split; [constructor; lra|].
      apply find_pivot_none in Hpiv. unfold shaped in Hshape.
      rewrite Forall_forall in *. intros r Hr.
      specialize (Hpiv r Hr). specialize (Hshape r Hr).
      destruct r as [|r1 r]; [discriminate|]. simpl in *.
      rewrite dotR_zero_r; [lra|].
      apply Forall_forall. intros x Hx. now apply repeat_spec in Hx.
Qed.

(** What the solver returns satisfies every equation of a square
    system. *)
Lemma solve_sound (n : nat) (rows : list equation) (ws : list R) :
  shaped n rows -> length rows = n -> solve n rows = Ok ws ->
  length ws = n /\ solves n rows ws.
Proof.
  revert rows ws. induction n as [|n IH]; intros rows ws Hshape Hsq; simpl.
  - intro H. injection H as <-. split; [reflexivity|].
    destruct rows; [constructor | discriminate].
  - destruct (find_pivot rows) as [[p rest]|] eqn:Hpiv; [|discriminate].
    destruct (find_pivot_some _ _ _ Hpiv) as [Hp Hperm].
    pose proof (shaped_perm _ _ _ Hperm Hshape) as Hshape'.
    assert (Hrest : length rest = n).
    { apply Permutation_length in Hperm. simpl in Hperm. lia. }
    destruct (solve n (map (eliminate p) rest)) as [ws'|e'] eqn:Hrec;
      simpl; [|discriminate].
    intro H. injection H as <-.
    destruct (IH _ _ (shaped_eliminate _ _ _ Hshape')
                 (eq_trans (length_map _ _) Hrest) Hrec) as [Hlen Hsol].
    split; [simpl; now rewrite Hlen|].
    unfold solves in *. rewrite Forall_forall. intros r Hr.
    apply (Permutation_in _ Hperm) in Hr.
    inversion Hshape' as [|? ? Hplen Hrlen]; subst.
    destruct p as [|p1 p]; [discriminate|]. simpl in Hp.
    injection Hplen as Hplen. simpl tl.
    destruct Hr as [<-|Hr].
    + simpl. field. exact Hp.
    + rewrite Forall_map in Hsol. rewrite Forall_forall in *.
      specialize (Hsol r Hr). specialize (Hrlen r Hr).
      destruct r as [|r1 r]; [discriminate|]. injection Hrlen as Hrlen.
      rewrite dotR_eliminate in Hsol by lia.
      unfold eliminate in Hsol. simpl in Hsol.
      rewrite (nth_zip_with _ _ _ _ _ 0 0) in Hsol by lia.
      simpl. revert Hsol.
      generalize (dotR r ws'), (dotR p ws'),
        (nth (length rest) r 0), (nth (length rest) p 0).
      intros a b c d Hsol.
      replace a with (c - r1 / p1 * d + r1 / p1 * b) by lra.
      field. exact Hp.
Qed.

Lemma tracking_rows_shaped (targets : list R) (sens : list (list R)) :
  shaped (length sens) (tracking_rows targets sens).
Proof.
  unfold shaped, tracking_rows. apply Forall_app. split.
  - apply Forall_map, Forall_forall. intros j _.
    rewrite length_app, length_map. simpl. lia.
  - constructor; [|constructor].
    rewrite length_app, repeat_length. simpl. lia.
Qed.

(** Three assets whose sensitivity points lie on one line make the
    system of two factors singular. *)
Lemma collinear_singular (t1 t2 : R) (p q r : R * R) :
  collinear p q r ->
  singular 3 (tracking_rows [t1; t2]
                [[fst p; snd p]; [fst q; snd q]; [fst r; snd r]]).
Proof.
  destruct p as [x1 y1], q as [x2 y2], r as [x3 y3].
  unfold collinear, tracking_rows. simpl. intro Hc.
  destruct (Req_dec x1 x2) as [Hx|Hx].
  - destruct (Req_dec y1 y2) as [Hy|Hy].
    + exists [1; -1; 0]. split; [reflexivity|].
      split; [constructor; lra|].
      repeat constructor; simpl; subst; lra.
    + exists [1 - (y3 - y1) / (y2 - y1); (y3 - y1) / (y2 - y1); -1].
      split; [reflexivity|].
      split; [do 2 apply Exists_cons_tl; constructor; lra|].
      assert (Hx3 : x3 = x1) by nra.
      repeat constructor; simpl; subst; field; lra.
  - exists [1 - (x3 - x1) / (x2 - x1); (x3 - x1) / (x2 - x1); -1].
    split; [reflexivity|].
    split; [do 2 apply Exists_cons_tl; constructor; lra|].
    assert (Hy3 : y3 - y1 = (x3 - x1) / (x2 - x1) * (y2 - y1)).
    { field_simplify_eq; [|lra]. lra. }
    repeat constructor; simpl.
    + field. lra.
    + replace y3 with (y1 + (x3 - x1) / (x2 - x1) * (y2 - y1)) by lra.
      field. lra.
    + field. lra.
Qed.

End SolverAdequacy.

Section TrackingSolver.

Import Solver.

(** On the worked example the solver returns the weights the notebook
    states. *)
Lemma tracking_weights_example :
  tracking_weights
    [fst Tracking.benchmark; snd Tracking.benchmark]
    [ [Tracking.b11; Tracking.b12];
      [Tracking.b21; Tracking.b22];
      [Tracking.b31; Tracking.b32] ]
  = Ok [1 / 3; 1 / 6; 1 / 2].
Proof.
  unfold tracking_weights.
  set (rows := tracking_rows _ _).
  assert (Hshape : shaped 3 rows)
    by exact (tracking_rows_shaped
                [fst Tracking.benchmark; snd Tracking.benchmark]
                [ [Tracking.b11; Tracking.b12];
                  [Tracking.b21; Tracking.b22];
                  [Tracking.b31; Tracking.b32] ]).
  simpl length. destruct (solve 3 rows) as [ws|e] eqn:Hsolve.
  - destruct (solve_sound 3 rows ws Hshape eq_refl Hsolve) as [Hlen Hsol].
    destruct ws as [|w1 [|w2 [|w3 [|? ?]]]]; try discriminate.
    unfold solves, rows, tracking_rows, Tracking.benchmark, Tracking.b11,
      Tracking.b12, Tracking.b21, Tracking.b22, Tracking.b31, Tracking.b32
      in Hsol.
    simpl in Hsol.
    inversion Hsol as [|? ? H1 Hsol']; subst.
    inversion Hsol' as [|? ? H2 Hsol'']; subst.
    inversion Hsol'' as [|? ? H3 _]; subst.
    simpl in H1, H2, H3.
    assert (w1 = 1 / 3 /\ w2 = 1 / 6 /\ w3 = 1 / 2) as (-> & -> & ->)
        by (repeat split; lra).
    reflexivity.
  - exfalso. destruct (solve_raise 3 rows e Hshape Hsolve) as [_ Hsing].
    destruct Hsing as (v & Hlen & Hnz & Hnull).
    destruct v as [|v1 [|v2 [|v3 [|? ?]]]]; try discriminate.
    unfold rows, tracking_rows, Tracking.benchmark, Tracking.b11,
      Tracking.b12, Tracking.b21, Tracking.b22, Tracking.b31, Tracking.b32
      in Hnull.
    simpl in Hnull.
    inversion Hnull as [|? ? H1 Hnull']; subst.
    inversion Hnull' as [|? ? H2 Hnull'']; subst.
    inversion Hnull'' as [|? ? H3 _]; subst.
    simpl in H1, H2, H3.
    assert (v1 = 0 /\ v2 = 0 /\ v3 = 0) as (-> & -> & ->) by (repeat split; lra).
    repeat match goal with
           | H : Exists _ _ |- _ => inversion H; clear H; subst
           end; lra.
Qed.

(** C8: on a singular coefficient matrix the solver of the tracking
    system returns no weights and raises the no-unique-solution error; in
    particular for three assets whose sensitivity vectors are collinear. *)
Theorem singular_system_raises :
  (forall (targets : list R) (sens : list (list R)),
      singular (length sens) (tracking_rows targets sens) ->
      tracking_weights targets sens = Raise NoUniqueSolution) /\
  (forall (t1 t2 : R) (p q r : R * R),
      collinear p q r ->
      tracking_weights [t1; t2]
        [[fst p; snd p]; [fst q; snd q]; [fst r; snd r]]
      = Raise NoUniqueSolution).
Proof.
  split.
  - intros targets sens Hsing. unfold tracking_weights.
    apply solve_singular; [apply tracking_rows_shaped | exact Hsing].
  - intros t1 t2 p q r Hc. unfold tracking_weights.
    apply solve_singular; [apply tracking_rows_shaped|].
    now apply collinear_singular.
Qed.

Lemma singular_system_raises_witness :
  collinear (0, 0) (1, 1) (2, 2) /\
  singular 3 (tracking_rows [1; 11 / 10] [[0; 0]; [1; 1]; [2; 2]]) /\
  tracking_weights [1; 11 / 10] [[0; 0]; [1; 1]; [2; 2]]
  = Raise NoUniqueSolution.
Proof.
  assert (Hc : collinear (0, 0) (1, 1) (2, 2)).
  { unfold collinear. simpl. lra. }
  assert (Hs : singular 3 (tracking_rows [1; 11 / 10] [[0; 0]; [1; 1]; [2; 2]])).
  { exists [1; -2; 1]. split; [reflexivity|].
    split; [constructor; lra|].
    unfold tracking_rows. simpl. repeat constructor; simpl; lra. }
  split; [exact Hc|]. split; [exact Hs|].
  destruct singular_system_raises as [Hgen Hcol].
  pose proof (Hgen [1; 11 / 10] [[0; 0]; [1; 1]; [2; 2]] Hs) as H1.
  pose proof (Hcol 1 (11 / 10) (0, 0) (1, 1) (2, 2) Hc) as H2.
  exact H2.
Defined.

End TrackingSolver.


(** * Further properties of the notebook's code *)

(** ** The ranking *)

Section Ranking.

Import Universe.

(** [key_le] is a total preorder on floats in which NaN is the greatest
    element. *)
Lemma key_le_total (a b : float64) : key_le a b = false -> key_le b a = true.
Proof.
  unfold key_le, fle, fgt.
  destruct a, b; simpl; try discriminate; try reflexivity.
  destruct (Rlt_dec x0 x), (Rlt_dec x x0); simpl; try discriminate;
    try reflexivity.
  lra.
Qed.

Lemma key_le_trans (a b c : float64) :
  key_le a b = true -> key_le b c = true -> key_le a c = true.
Proof.
  unfold key_le, fle, fgt.
  destruct a, b, c; simpl; try discriminate; try reflexivity.
  destruct (Rlt_dec x0 x), (Rlt_dec x1 x0), (Rlt_dec x1 x); simpl;
    try discriminate; try reflexivity.
  lra.
Qed.

Variable key : row -> float64.

Lemma insert_by_hdrel (a r : row) (l : list row) :
  ranked key a r -> HdRel (ranked key) a l ->
  HdRel (ranked key) a (insert_by key r l).
Proof.
  intros Har Hl. destruct l as [|h t]; simpl.
  - now constructor.
  - destruct (key_le (key r) (key h)).
    + now constructor.
    + constructor. now inversion Hl.
Qed.

Lemma insert_by_sorted (r : row) (l : list row) :
  Sorted (ranked key) l -> Sorted (ranked key) (insert_by key r l).
Proof.
  induction 1 as [|h t Ht IH Hhd]; simpl.
  - repeat constructor.
  - destruct (key_le (key r) (key h)) eqn:Hle.
    + constructor; [now constructor|]. now constructor.
    + constructor; [exact IH|].
      apply insert_by_hdrel; [|exact Hhd].
      now apply key_le_total.
Qed.

Lemma sort_sorted (data : list row) : Sorted (ranked key) (sort key data).
Proof.
  induction data as [|r data IH]; simpl.
  - constructor.
  - now apply insert_by_sorted.
Qed.

Lemma sort_strongly_sorted (data : list row) :
  StronglySorted (ranked key) (sort key data).
Proof.
  apply Sorted_StronglySorted; [|apply sort_sorted].
  intros a b c. apply key_le_trans.
Qed.

Lemma strongly_sorted_split (k : nat) (l : list row) (r r' : row) :
  StronglySorted (ranked key) l ->
  In r (firstn k l) -> In r' (skipn k l) -> ranked key r r'.
Proof.
  intro Hs. revert k. induction Hs as [|a l Hs IH Hall]; intros [|k] Hr Hr';
    simpl in *; try contradiction.
  destruct Hr as [<-|Hr].
  - rewrite Forall_forall in Hall. apply Hall. now apply in_skipn_in in Hr'.
  - now apply (IH k).
Qed.

Lemma bottom_below_top (data : list row) (r r' : row) :
  In r (firstn (3 * length data / 10) (sort key data)) ->
  In r' (skipn (7 * length data / 10) (sort key data)) ->
  ranked key r r'.
Proof.
  intros Hb Ht.
  apply (strongly_sorted_split (3 * length data / 10) (sort key data));
    [apply sort_strongly_sorted | exact Hb |].
  apply in_skipn_le with (k := (7 * length data / 10)%nat); [|exact Ht].
  apply Nat.Div0.div_le_mono. lia.
Qed.

End Ranking.

Lemma key_le_not_greater (a b : float64) :
  isnan a = false -> isnan b = false ->
  Universe.key_le a b = true -> fgt a b = false.
Proof.
  unfold Universe.key_le, fle. destruct a, b; simpl; try discriminate;
    intros _ _ H; try reflexivity.
  now apply negb_true_iff in H.
Qed.

Lemma market_cap_bottom_fundamentals :
  Universe.market_cap_bottom (Universe.data Samples.fundamentals)
  = [ Universe.mkRow 6 (Fin 10) (Fin (1 / 4)) ].
Proof.
  rewrite data_fundamentals. unfold Universe.market_cap_bottom, Universe.sort.
  cbn [fold_right length].
  change (Universe.insert_by Universe.market_cap ?r []) with [r].
  repeat first
    [ rewrite insert_by_head by (apply key_le_fin; simpl; lra)
    | rewrite insert_by_skip by (apply key_gt_fin; simpl; lra)
    | change (Universe.insert_by Universe.market_cap ?r []) with [r] ].
  reflexivity.
Qed.

(** X1: [data.sort(column)] returns the rows of [data], each as often as
    before, in ascending order of the column, rows with a missing key
    last. *)
Theorem sort_ascending_permutation
        (key : Universe.row -> float64) (data : list Universe.row) :
  Permutation (Universe.sort key data) data /\
  StronglySorted (Universe.ranked key) (Universe.sort key data) /\
  (forall r r' : Universe.row,
      isnan (key r) = true -> isnan (key r') = false ->
      In r data -> In r' data ->
      exists l1 l2 l3, Universe.sort key data = l1 ++ r' :: l2 ++ r :: l3).
Proof.
  split; [apply sort_perm|]. split; [apply sort_strongly_sorted|].
  intros r r' Hr Hr' Hin Hin'.
  apply (Permutation_in _ (Permutation_sym (sort_perm key data))) in Hin.
  apply (Permutation_in _ (Permutation_sym (sort_perm key data))) in Hin'.
  pose proof (sort_strongly_sorted key data) as Hs.
  revert Hin Hin' Hs. generalize (Universe.sort key data) as l.
  induction l as [|a l IH]; intros Hin Hin' Hs; [contradiction|].
  inversion Hs as [|? ? Hs' Hall]; subst.
  destruct Hin' as [->|Hin'].
  - destruct Hin as [->|Hin]; [congruence|].
    apply in_split in Hin. destruct Hin as (l2 & l3 & ->).
    now exists [], l2, l3.
  - destruct Hin as [->|Hin].
    + exfalso. rewrite Forall_forall in Hall. specialize (Hall r' Hin').
      unfold Universe.ranked, Universe.key_le, fle in Hall.
      rewrite Hr' in Hall. destruct (key r); try discriminate.
    + destruct (IH Hin Hin' Hs') as (l1 & l2 & l3 & ->).
      now exists (a :: l1), l2, l3.
Qed.

Lemma sort_ascending_permutation_witness :
  exists l1 l2 l3,
    Universe.sort Universe.market_cap Samples.fundamentals
    = l1 ++ Universe.mkRow 7 (Fin 90) (Fin 3) :: l2
         ++ Universe.mkRow 2 NaN (Fin 1) :: l3.
Proof.
  apply (proj2 (proj2 (sort_ascending_permutation
                         Universe.market_cap Samples.fundamentals))).
  - reflexivity.
  - reflexivity.
  - unfold Samples.fundamentals. simpl. tauto.
  - unfold Samples.fundamentals. simpl. tauto.
Defined.

(** X2: no asset of a bottom bucket ranks above an asset of the top bucket
    of the same ranking: its market capitalisation (its book-to-price) is
    not the greater one. *)
Theorem bottom_never_above_top
        (fundamentals : list Universe.row) (r r' : Universe.row) :
  let data := Universe.data fundamentals in
  (In r (Universe.market_cap_bottom data) ->
   In r' (Universe.market_cap_top data) ->
   fgt (Universe.market_cap r) (Universe.market_cap r') = false) /\
  (In r (Universe.bp_bottom data) ->
   In r' (Universe.bp_top data) ->
   fgt (Universe.book_value_yield r) (Universe.book_value_yield r') = false).
Proof.
  intro data.
  assert (Hin : forall key x k,
             In x (firstn k (Universe.sort key data)) \/
             In x (skipn k (Universe.sort key data)) ->
             isnan (Universe.market_cap x) = false /\
             isnan (Universe.book_value_yield x) = false).
  { intros key x k H.
    assert (Hx : In x data).
    { destruct H as [H|H];
        [apply in_firstn_in in H | apply in_skipn_in in H];
        now apply in_sort in H. }
    apply data_sound in Hx. tauto. }
  split; intros Hb Ht.
  - apply key_le_not_greater.
    + apply (Hin Universe.market_cap r _ (or_introl Hb)).
    + apply (Hin Universe.market_cap r' _ (or_intror Ht)).
    + apply (bottom_below_top Universe.market_cap data r r' Hb Ht).
  - apply key_le_not_greater.
    + apply (Hin Universe.book_value_yield r _ (or_introl Hb)).
    + apply (Hin Universe.book_value_yield r' _ (or_intror Ht)).
    + apply (bottom_below_top Universe.book_value_yield data r r' Hb Ht).
Qed.

Lemma bottom_never_above_top_witness :
  In (Universe.mkRow 6 (Fin 10) (Fin (1 / 4)))
     (Universe.market_cap_bottom (Universe.data Samples.fundamentals)) /\
  In (Universe.mkRow 7 (Fin 90) (Fin 3))
     (Universe.market_cap_top (Universe.data Samples.fundamentals)) /\
  fgt (Fin 10) (Fin 90) = false.
Proof.
  assert (Hb : In (Universe.mkRow 6 (Fin 10) (Fin (1 / 4)))
                  (Universe.market_cap_bottom (Universe.data Samples.fundamentals))).
  { rewrite market_cap_bottom_fundamentals. simpl. tauto. }
  assert (Ht : In (Universe.mkRow 7 (Fin 90) (Fin 3))
                  (Universe.market_cap_top (Universe.data Samples.fundamentals))).
  { rewrite market_cap_top_fundamentals. simpl. tauto. }
  split; [exact Hb|]. split; [exact Ht|].
  exact (proj1 (bottom_never_above_top Samples.fundamentals _ _) Hb Ht).
Defined.

(** X3: the top bucket holds as many assets as the bottom bucket or one
    more, and as many exactly when the number of assets is a multiple of
    ten; together they never hold more than the universe. *)
Theorem bucket_size_gap (data : list Universe.row) :
  let top := length (Universe.market_cap_top data) in
  let bottom := length (Universe.market_cap_bottom data) in
  length (Universe.bp_top data) = top /\
  length (Universe.bp_bottom data) = bottom /\
  (top = bottom \/ top = S bottom) /\
  (top = bottom <-> (length data mod 10 = 0)%nat) /\
  (bottom + top <= length data)%nat.
Proof.
  unfold Universe.market_cap_top, Universe.market_cap_bottom,
    Universe.bp_top, Universe.bp_bottom.
  cbv zeta. rewrite !top_length, !bottom_length.
  generalize (length data) as n. intro n.
  pose proof (Nat.div_mod_eq (7 * n) 10).
  pose proof (Nat.div_mod_eq (3 * n) 10).
  pose proof (Nat.div_mod_eq n 10).
  pose proof (Nat.mod_upper_bound (7 * n) 10).
  pose proof (Nat.mod_upper_bound (3 * n) 10).
  pose proof (Nat.mod_upper_bound n 10).
  repeat split; lia.
Qed.

(** X4: the bottom bucket is empty exactly in universes of at most three
    assets, the top bucket only in the empty universe. *)
Theorem small_universe_buckets (data : list Universe.row) :
  (Universe.market_cap_bottom data = [] <-> (length data <= 3)%nat) /\
  (Universe.bp_bottom data = [] <-> (length data <= 3)%nat) /\
  (Universe.market_cap_top data = [] <-> data = []) /\
  (Universe.bp_top data = [] <-> data = []).
Proof.
  rewrite <- !length_zero_iff_nil.
  unfold Universe.market_cap_top, Universe.market_cap_bottom,
    Universe.bp_top, Universe.bp_bottom.
  rewrite !top_length, !bottom_length.
  generalize (length data) as n. intro n.
  pose proof (Nat.div_mod_eq (7 * n) 10).
  pose proof (Nat.div_mod_eq (3 * n) 10).
  pose proof (Nat.mod_upper_bound (7 * n) 10).
  pose proof (Nat.mod_upper_bound (3 * n) 10).
  repeat split; lia.
Qed.

(** ** Returns of complete price histories *)

Section Returns.

Import Pricing.

Lemma pad_from_present (last : float64) (ps : list R) :
  pad_from last (map Fin ps) = map Fin ps.
Proof.
  revert last. induction ps as [|p ps IH]; intro last; simpl; auto.
  now rewrite IH.
Qed.

Lemma zip_with_firstn {A B C : Type} (f : A -> B -> C) (xs : list A) (ys : list B) :
  zip_with f xs (firstn (length xs) ys) = zip_with f xs ys.
Proof.
  revert ys. induction xs as [|x xs IH]; intros [|y ys]; simpl; auto.
  now rewrite IH.
Qed.

Lemma mask_present (ps : list R) (rs : Series) :
  length rs = length ps ->
  zip_with (fun orig r => if isnan orig then NaN else r) (map Fin ps) rs = rs.
Proof.
  revert rs. induction ps as [|p ps IH]; intros [|r rs] Hlen; simpl in *;
    try discriminate; auto.
  rewrite IH by lia. reflexivity.
Qed.

Lemma ratios_present (p : R) (ps : list R) :
  Forall (fun q => q <> 0) (p :: ps) ->
  zip_with (fun cur prev => fsub (fdiv cur prev) (Fin 1))
           (map Fin ps) (Fin p :: map Fin ps)
  = map Fin (simple_returns (p :: ps)).
Proof.
  unfold simple_returns. simpl tl.
  revert p. induction ps as [|c ps IH]; intros p Hnz; simpl; auto.
  inversion Hnz as [|? ? Hp Hrest]; subst.
  rewrite (IH c Hrest).
  destruct (Req_EM_T p 0) as [Hz|_]; [contradiction|].
  reflexivity.
Qed.

(** The whole return series of a history without missing or zero
    prices. *)
Lemma pct_change_present (p : R) (ps : list R) :
  Forall (fun q => q <> 0) (p :: ps) ->
  pct_change (map Fin (p :: ps)) = NaN :: map Fin (simple_returns (p :: ps)).
Proof.
  intro Hnz. unfold pct_change, pad, shift1.
  rewrite pad_from_present, zip_with_firstn.
  cbn [map zip_with]. rewrite (ratios_present p ps Hnz).
  cbn [fdiv fsub fadd fneg isnan]. f_equal.
  apply mask_present.
  unfold simple_returns. rewrite length_map, zip_with_length.
  cbn [tl length]. lia.
Qed.

End Returns.

Lemma present_returns (ps : list R) :
  Forall (fun q => q <> 0) ps ->
  Pricing.drop_first (Pricing.pct_change (map Fin ps))
  = map Fin (Pricing.simple_returns ps).
Proof.
  intro Hnz. destruct ps as [|p ps]; [reflexivity|].
  now rewrite (pct_change_present p ps Hnz).
Qed.

Lemma nth_tl {A : Type} (i : nat) (l : list A) (d : A) :
  nth i (tl l) d = nth (S i) l d.
Proof. destruct l; simpl; [now destruct i | reflexivity]. Qed.

Lemma simple_returns_length (ps : list R) :
  length (Pricing.simple_returns ps) = (length ps - 1)%nat.
Proof.
  unfold Pricing.simple_returns. rewrite zip_with_length.
  destruct ps as [|p ps]; [reflexivity|]. cbn [tl length]. lia.
Qed.

Lemma simple_returns_nth (ps : list R) (i : nat) :
  (S i < length ps)%nat ->
  nth i (Pricing.simple_returns ps) 0 = nth (S i) ps 0 / nth i ps 0 - 1.
Proof.
  intro Hi. unfold Pricing.simple_returns.
  rewrite (nth_zip_with _ _ _ _ _ 0 0).
  - now rewrite nth_tl.
  - lia.
  - destruct ps; simpl in *; lia.
Qed.

Lemma zip_with_cons {A B C : Type} (f : A -> B -> C) (x : A) (xs : list A)
      (y : B) (ys : list B) :
  zip_with f (x :: xs) (y :: ys) = f x y :: zip_with f xs ys.
Proof. reflexivity. Qed.

Lemma simple_returns_scale (k : R) (ps : list R) :
  k <> 0 -> Forall (fun q => q <> 0) ps ->
  Pricing.simple_returns (map (Rmult k) ps) = Pricing.simple_returns ps.
Proof.
  intros Hk Hnz. unfold Pricing.simple_returns.
  destruct ps as [|p ps]; [reflexivity|]. cbn [map tl].
  revert p Hnz. induction ps as [|c ps IH]; intros p Hnz; [reflexivity|].
  inversion Hnz as [|? ? Hp Hrest]; subst.
  cbn [map]. rewrite !zip_with_cons, (IH c Hrest). f_equal.
  field. split; assumption.
Qed.

Lemma scaled_nonzero (k : R) (ps : list R) :
  k <> 0 -> Forall (fun q => q <> 0) ps ->
  Forall (fun q => q <> 0) (map (Rmult k) ps).
Proof.
  intros Hk Hnz. apply Forall_map. apply Forall_impl with (2 := Hnz).
  intros q Hq. now apply Rmult_integral_contrapositive_currified.
Qed.

(** X5: when no price is missing or zero, every return after the dropped
    first one is the finite number [p(t+1) / p(t) - 1]. *)
Theorem returns_of_present_prices (ps : list R) :
  Forall (fun q => q <> 0) ps ->
  Pricing.drop_first (Pricing.pct_change (map Fin ps))
  = map Fin (Pricing.simple_returns ps) /\
  forall i : nat,
    (S i < length ps)%nat ->
    nth i (Pricing.drop_first (Pricing.pct_change (map Fin ps))) NaN
    = Fin (nth (S i) ps 0 / nth i ps 0 - 1).
Proof.
  intro Hnz. split; [now apply present_returns|].
  intros i Hi. rewrite (present_returns ps Hnz).
  rewrite <- (simple_returns_nth ps i Hi).
  rewrite (nth_indep _ NaN (Fin 0)).
  - apply map_nth.
  - rewrite length_map, simple_returns_length. lia.
Qed.

Lemma returns_of_present_prices_witness :
  nth 1 (Pricing.drop_first (Pricing.pct_change (map Fin [1; 2; 4]))) NaN
  = Fin (nth 2 [1; 2; 4] 0 / nth 1 [1; 2; 4] 0 - 1).
Proof.
  apply (proj2 (returns_of_present_prices [1; 2; 4]
                  ltac:(repeat constructor; lra)) 1%nat).
  simpl. lia.
Defined.

(** X6: compounding the returns gives the prices back: each price times
    one plus the following return is the next price. *)
Theorem compounding_recovers_prices (ps : list R) (i : nat) :
  Forall (fun q => q <> 0) ps ->
  (S i < length ps)%nat ->
  fmul (Fin (nth i ps 0))
       (fadd (Fin 1)
             (nth i (Pricing.drop_first (Pricing.pct_change (map Fin ps))) NaN))
  = Fin (nth (S i) ps 0).
Proof.
  intros Hnz Hi. rewrite (present_returns ps Hnz).
  rewrite (nth_indep _ NaN (Fin 0)).
  - rewrite map_nth, (simple_returns_nth ps i Hi). simpl. f_equal.
    field. rewrite Forall_forall in Hnz. apply Hnz, nth_In. lia.
  - rewrite length_map, simple_returns_length. lia.
Qed.

Lemma compounding_recovers_prices_witness :
  fmul (Fin (nth 0 [1; 2; 4] 0))
       (fadd (Fin 1)
             (nth 0 (Pricing.drop_first (Pricing.pct_change (map Fin [1; 2; 4])))
                  NaN))
  = Fin (nth 1 [1; 2; 4] 0).
Proof.
  apply (compounding_recovers_prices [1; 2; 4] 0).
  - repeat constructor; lra.
  - simpl. lia.
Defined.

(** X7: the returns do not depend on the unit of the prices: multiplying
    every price by the same nonzero number leaves [pct_change]
    unchanged. *)
Theorem returns_scale_invariant (k : R) (ps : list R) :
  k <> 0 ->
  Forall (fun q => q <> 0) ps ->
  Pricing.pct_change (map Fin (map (Rmult k) ps))
  = Pricing.pct_change (map Fin ps).
Proof.
  intros Hk Hnz. destruct ps as [|p ps]; [reflexivity|].
  rewrite (pct_change_present p ps Hnz).
  pose proof (scaled_nonzero k (p :: ps) Hk Hnz) as Hnz'.
  change (map (Rmult k) (p :: ps)) with (k * p :: map (Rmult k) ps) in *.
  rewrite (pct_change_present (k * p) (map (Rmult k) ps) Hnz').
  do 2 f_equal. apply (simple_returns_scale k (p :: ps) Hk Hnz).
Qed.

Lemma returns_scale_invariant_witness :
  Pricing.pct_change (map Fin (map (Rmult 100) [1; 2; 4]))
  = Pricing.pct_change (map Fin [1; 2; 4]).
Proof.
  apply (returns_scale_invariant 100 [1; 2; 4]).
  - lra.
  - repeat constructor; lra.
Defined.

(** ** Missing data in the price frames *)

Section MissingData.

Import Pricing.

(** X8: a missing price never yields a return: [pct_change] is NaN at
    every position where the price is NaN, whatever was padded in. *)
Theorem missing_price_missing_return (xs : Series) (i : nat) :
  nth i xs (Fin 0) = NaN ->
  nth i (pct_change xs) (Fin 0) = NaN.
Proof.
  intro Hx.
  assert (Hi : (i < length xs)%nat).
  { destruct (Nat.lt_ge_cases i (length xs)) as [H|H]; [exact H|].
    rewrite nth_overflow in Hx by exact H. discriminate. }
  unfold pct_change.
  rewrite (nth_zip_with _ _ _ _ _ (Fin 0) (Fin 0)).
  - now rewrite Hx.
  - exact Hi.
  - unfold pad. rewrite zip_with_length, shift1_length, pad_from_length. lia.
Qed.

Lemma missing_price_missing_return_witness :
  nth 1 (pct_change [Fin 1; NaN; Fin 2]) (Fin 0) = NaN.
Proof.
  apply (missing_price_missing_return [Fin 1; NaN; Fin 2] 1). reflexivity.
Defined.

Lemma complete_rows_spec (df : Frame) (i : nat) :
  In i (complete_rows df) ->
  (i < nrows df)%nat /\ forall c, In c (columns df) -> notnan (nth i c NaN) = true.
Proof.
  unfold complete_rows. rewrite filter_In, in_seq, forallb_forall.
  intros [Hi Hc]. split; [lia | exact Hc].
Qed.

(** X9: after [dropna()] no cell of the frame is NaN, and every column
    holds one value per remaining row. *)
Theorem frame_dropna_complete (df : Frame) :
  well_formed (frame_dropna df) /\
  Forall (fun c => Attribution.complete c) (columns (frame_dropna df)).
Proof.
  unfold well_formed, frame_dropna. cbn [nrows columns]. split.
  - apply Forall_map, Forall_forall. intros c _. now rewrite length_map.
  - apply Forall_map, Forall_forall. intros c Hc.
    unfold Attribution.complete. apply Forall_map, Forall_forall.
    intros i Hi. now apply (proj2 (complete_rows_spec df i Hi)).
Qed.

Lemma nanmean_empty : nanmean [] = NaN.
Proof.
  unfold nanmean, of_nat. simpl.
  destruct (Req_EM_T 0 0); [|lra]. unfold inf_signed.
  destruct (total_order_T 0 0) as [[?|?]|?]; try lra. reflexivity.
Qed.

Lemma map_const_repeat {A B : Type} (b : B) (l : list A) :
  map (fun _ => b) l = repeat b (length l).
Proof. induction l as [|a l IH]; simpl; [reflexivity | now rewrite IH]. Qed.

Lemma bucket_mean_undefined (prices : Frame) :
  complete_rows (transpose (frame_drop_first (frame_pct_change prices))) = [] ->
  bucket_mean prices = repeat NaN (nrows prices - 1).
Proof.
  intro Hnone. unfold bucket_mean, np_mean, frame_dropna. rewrite Hnone.
  cbn [columns map]. rewrite map_map. cbn [map]. rewrite nanmean_empty.
  rewrite map_const_repeat. unfold transpose. cbn [columns nrows].
  now rewrite length_map, length_seq.
Qed.

Lemma no_column_no_complete_row (prices : Frame) :
  columns prices = [] ->
  complete_rows (transpose (frame_drop_first (frame_pct_change prices))) = [].
Proof.
  intro Hc. unfold complete_rows, transpose, frame_drop_first, frame_pct_change.
  cbn [columns nrows]. now rewrite Hc.
Qed.

Lemma series_sub_nan_l (n : nat) (ys : Series) :
  length ys = n -> series_sub (repeat NaN n) ys = repeat NaN n.
Proof.
  revert ys. induction n as [|n IH]; intros [|y ys] Hlen; simpl in *;
    try discriminate; auto.
  rewrite IH by lia. reflexivity.
Qed.

Lemma series_sub_nan_r (n : nat) (xs : Series) :
  length xs = n -> series_sub xs (repeat NaN n) = repeat NaN n.
Proof.
  revert xs. induction n as [|n IH]; intros [|x xs] Hlen; simpl in *;
    try discriminate; auto.
  rewrite IH by lia. unfold fsub. simpl. now destruct x.
Qed.

(** X10: a bucket in which no asset has a complete return history (an
    empty bucket in particular) raises nothing: its mean return is NaN on
    every date. *)
Theorem bucket_without_complete_asset (prices : Frame) :
  (complete_rows (transpose (frame_drop_first (frame_pct_change prices))) = [] ->
   bucket_mean prices = repeat NaN (nrows prices - 1)) /\
  (columns prices = [] ->
   bucket_mean prices = repeat NaN (nrows prices - 1)).
Proof.
  split; [apply bucket_mean_undefined|].
  intro Hc. now apply bucket_mean_undefined, no_column_no_complete_row.
Qed.

Lemma bucket_without_complete_asset_witness :
  bucket_mean (Samples.three_days []) = repeat NaN 2.
Proof.
  exact (proj2 (bucket_without_complete_asset (Samples.three_days [])) eq_refl).
Defined.

(** X11: in a universe of at most three assets the bottom buckets are
    empty, and if the pricing provider returns one column per requested
    asset over [N] dates, both factors are NaN on every date. *)
Theorem factors_of_small_universe
        (get_pricing : list nat -> Frame) (N : nat) (data : list Universe.row) :
  (forall ids, nrows (get_pricing ids) = N) ->
  (forall ids, length (columns (get_pricing ids)) = length ids) ->
  (length data <= 3)%nat ->
  f1 get_pricing data = repeat NaN (N - 1) /\
  f2 get_pricing data = repeat NaN (N - 1).
Proof.
  intros HN Hcols Hsmall.
  assert (Hbottom : forall key,
             bucket_mean (get_pricing (Universe.index
               (firstn (3 * length data / 10) (Universe.sort key data))))
             = repeat NaN (N - 1)).
  { intro key. rewrite <- (HN (Universe.index
               (firstn (3 * length data / 10) (Universe.sort key data)))).
    apply bucket_mean_undefined, no_column_no_complete_row.
    apply length_zero_iff_nil. rewrite Hcols. unfold Universe.index.
    rewrite length_map, bottom_length.
    apply Nat.div_small. lia. }
  unfold f1, f2, Universe.market_cap_bottom, Universe.bp_bottom.
  rewrite !Hbottom.
  split; apply series_sub_nan_r; now rewrite bucket_mean_length, HN.
Qed.

Lemma factors_of_small_universe_witness :
  f1 Samples.three_days (Samples.universe 3) = repeat NaN 2 /\
  f2 Samples.three_days (Samples.universe 3) = repeat NaN 2.
Proof.
  apply (factors_of_small_universe Samples.three_days 3 (Samples.universe 3)).
  - reflexivity.
  - intro ids. unfold Samples.three_days. cbn [columns]. apply length_map.
  - rewrite universe_length. lia.
Defined.

End MissingData.

(** ** Transposition *)

Lemma map_nth_seq {A : Type} (l : list A) (d : A) :
  map (fun i => nth i l d) (seq 0 (length l)) = l.
Proof.
  induction l as [|a l IH]; [reflexivity|].
  cbn [length seq map nth]. f_equal.
  rewrite <- seq_shift, map_map. exact IH.
Qed.

(** X12: [frame.T] swaps rows and columns of a frame whose columns all
    have one value per row: the result is such a frame again, and
    transposing twice gives the frame back. *)
Theorem transpose_involutive (df : Pricing.Frame) :
  Pricing.well_formed df ->
  Pricing.well_formed (Pricing.transpose df) /\
  Pricing.transpose (Pricing.transpose df) = df.
Proof.
  destruct df as [n cols]. unfold Pricing.well_formed, Pricing.transpose.
  cbn [Pricing.nrows Pricing.columns]. intro Hwf. split.
  - apply Forall_map, Forall_forall. intros i _. apply length_map.
  - rewrite length_map, length_seq. f_equal.
    transitivity (map (fun j => nth j cols []) (seq 0 (length cols)));
      [|apply map_nth_seq].
    apply map_ext_in. intros j Hj. apply in_seq in Hj.
    rewrite map_map.
    assert (Hlen : length (nth j cols []) = n).
    { rewrite Forall_forall in Hwf. apply Hwf, nth_In. lia. }
    transitivity (map (fun i => nth i (nth j cols []) NaN) (seq 0 n));
      [|rewrite <- Hlen; apply map_nth_seq].
    apply map_ext. intro i.
    rewrite (nth_indep _ NaN (nth i [] NaN)) by (rewrite length_map; apply Hj).
    apply (map_nth (fun c => nth i c NaN)).
Qed.

Lemma transpose_involutive_witness :
  Pricing.transpose (Pricing.transpose (Samples.three_days [1%nat; 2%nat]))
  = Samples.three_days [1%nat; 2%nat].
Proof.
  apply (transpose_involutive (Samples.three_days [1%nat; 2%nat])).
  unfold Pricing.well_formed, Samples.three_days. simpl.
  repeat constructor.
Defined.

(** ** The estimators on finite data *)

Section FiniteData.

Import Pricing Attribution.

Lemma fsum_fin (xs : list R) : fsum (map Fin xs) = Fin (rsum xs).
Proof.
  induction xs as [|x xs IH]; [reflexivity|].
  cbn [map fsum fold_right]. fold (fsum (map Fin xs)). rewrite IH. reflexivity.
Qed.

Lemma array_mean_fin (xs : list R) :
  xs <> [] -> array_mean (map Fin xs) = Fin (rmean xs).
Proof.
  intro Hne. unfold array_mean, of_nat, rmean.
  rewrite fsum_fin, length_map. cbn [fdiv].
  destruct (Req_EM_T (INR (length xs)) 0) as [Hz|_]; [|reflexivity].
  exfalso. revert Hz. apply not_0_INR. intro Hz.
  apply length_zero_iff_nil in Hz. contradiction.
Qed.

Lemma complete_fin (xs : list R) : complete (map Fin xs).
Proof. apply Forall_map, Forall_forall. reflexivity. Qed.

Lemma centred_products_fin (mx my : R) (xs ys : list R) :
  zip_with (fun x y => fmul (fsub x (Fin mx)) (fsub y (Fin my)))
           (map Fin xs) (map Fin ys)
  = map Fin (zip_with (fun x y => (x - mx) * (y - my)) xs ys).
Proof.
  revert ys. induction xs as [|x xs IH]; intros [|y ys]; simpl; auto.
  now rewrite IH.
Qed.

(** On finite data with at least two observations the covariance is the
    real number of the textbook formula. *)
Lemma sample_cov_fin (xs ys : list R) :
  (2 <= length xs)%nat -> length xs = length ys ->
  sample_cov (map Fin xs) (map Fin ys) = Fin (rcov xs ys).
Proof.
  intros Hn Hlen. unfold sample_cov, estimator_cov, rcov.
  rewrite length_map.
  destruct (length xs <=? 1)%nat eqn:Hle; [apply Nat.leb_le in Hle; lia|].
  rewrite !array_mean_fin by (intros ->; simpl in *; lia).
  rewrite centred_products_fin, fsum_fin. unfold of_nat. cbn [fdiv].
  destruct (Req_EM_T (INR (length xs - 1)) 0) as [Hz|_]; [|reflexivity].
  exfalso. revert Hz. apply not_0_INR. lia.
Qed.

Lemma ar_squared_fin (xs : list R) :
  (2 <= length xs)%nat -> ar_squared (map Fin xs) = Fin (rvar xs).
Proof.
  intro Hn. rewrite (ar_squared_spec _ (complete_fin xs)).
  now apply sample_cov_fin.
Qed.

Lemma rsum_squares_nonneg (g : R -> R) (xs : list R) :
  0 <= rsum (map (fun x => g x * g x) xs).
Proof.
  induction xs as [|x xs IH]; simpl; [lra|]. fold (rsum (map (fun x => g x * g x) xs)).
  nra.
Qed.

Lemma rvar_nonneg (xs : list R) : 0 <= rvar xs.
Proof.
  unfold rvar, rcov. rewrite zip_with_diag.
  apply Rmult_le_pos.
  - apply (rsum_squares_nonneg (fun x => x - rmean xs)).
  - destruct (length xs - 1)%nat eqn:Hn.
    + simpl. rewrite Rinv_0. lra.
    + left. apply Rinv_0_lt_compat. apply lt_0_INR. lia.
Qed.

End FiniteData.

(** ** Cell 7: errors, shape of the covariance matrix, degenerate data *)

Section Cell7.

Import Pricing Attribution.

Lemma sample_var_nonneg (xs : Series) : nonneg (sample_cov xs xs).
Proof.
  unfold sample_cov, estimator_cov.
  destruct (length xs <=? 1)%nat eqn:Hn; [exact I|].
  apply Nat.leb_gt in Hn. rewrite zip_with_diag. unfold of_nat.
  apply nonneg_fdiv.
  - apply lt_0_INR. lia.
  - apply (nonneg_sum_squares (fun x => fsub x (array_mean xs))).
Qed.

Lemma np_cov_inv (f1 f2 : Series) (cov : list (list float64)) :
  np_cov f1 f2 = Ok cov ->
  length f1 = length f2 /\
  cov = [ [ sample_cov f1 f1; sample_cov f1 f2 ];
          [ sample_cov f2 f1; sample_cov f2 f2 ] ].
Proof.
  intro H. destruct (Nat.eq_dec (length f1) (length f2)) as [Hlen|Hlen].
  - split; [exact Hlen|]. rewrite (np_cov_ok _ _ Hlen) in H. congruence.
  - rewrite (np_cov_mismatch _ _ Hlen) in H. discriminate.
Qed.

(** X13: cell 7 raises exactly when the two factor series differ in
    length, and then a [ValueError]; no other input makes it raise. *)
Theorem cell7_raises_on_mismatch_only
        (f1 f2 active : Series) (b1 b2 : float64) :
  (cell7 f1 f2 active b1 b2 = Raise ValueError <-> length f1 <> length f2) /\
  (forall e : exn, cell7 f1 f2 active b1 b2 = Raise e -> e = ValueError).
Proof.
  unfold cell7.
  destruct (Nat.eq_dec (length f1) (length f2)) as [Hlen|Hlen].
  - rewrite (np_cov_ok _ _ Hlen). cbn [bind]. split.
    + split; [discriminate | contradiction].
    + discriminate.
  - rewrite (np_cov_mismatch _ _ Hlen). cbn [bind]. split.
    + split; auto.
    + congruence.
Qed.

(** X14: the matrix [np.cov(f1, f2)] returns is symmetric, and its
    diagonal entries are never negative (they are a number that is not
    negative, +inf or NaN). *)
Theorem covariance_matrix_symmetric
        (f1 f2 : Series) (cov : list (list float64)) :
  np_cov f1 f2 = Ok cov ->
  entry cov 1 0 = entry cov 0 1 /\
  nonneg (entry cov 0 0) /\ nonneg (entry cov 1 1).
Proof.
  intro H. destruct (np_cov_inv _ _ _ H) as [Hlen ->].
  unfold entry. cbn [nth]. split; [|split].
  - unfold sample_cov. now apply estimator_cov_sym.
  - apply sample_var_nonneg.
  - apply sample_var_nonneg.
Qed.

Lemma covariance_matrix_symmetric_witness :
  sample_cov Samples.factor2 Samples.factor1
  = sample_cov Samples.factor1 Samples.factor2.
Proof.
  exact (proj1 (covariance_matrix_symmetric Samples.factor1 Samples.factor2 _
                  (np_cov_ok Samples.factor1 Samples.factor2 eq_refl))).
Defined.

(** X15: squaring the standard deviation gives back pandas' variance of
    the observations present, for every series; [ar_squared] is never
    negative. *)
Theorem ar_squared_is_variance (active : Series) :
  ar_squared active = nanvar 1 active /\
  ar_squared active
  = estimator_cov 1 (filter notnan active) (filter notnan active) /\
  nonneg (ar_squared active).
Proof.
  split; [apply ar_squared_nanvar|]. split.
  - rewrite ar_squared_nanvar. apply nanvar_observed.
  - rewrite ar_squared_nanvar. apply nanvar_nonneg.
Qed.

Lemma fmcar_nan_variance (b1 b2 : float64) (cov : list (list float64)) :
  fmcar1 b1 b2 cov NaN = NaN /\ fmcar2 b1 b2 cov NaN = NaN.
Proof.
  unfold fmcar1, fmcar2. split.
  - now destruct (fmul b1 _).
  - now destruct (fmul b2 _).
Qed.

Lemma fmul_nan_r (v : float64) : fmul v NaN = NaN.
Proof. now destruct v. Qed.

Lemma fadd_nan_r (v : float64) : fadd v NaN = NaN.
Proof. now destruct v. Qed.

(** X16: with fewer than two observations nothing is raised and nothing
    is estimated: an active series with at most one value present, or
    factor series of at most one date, make both FMCARs NaN. *)
Theorem too_few_observations (f1 f2 active : Series) (b1 b2 : float64) :
  length f1 = length f2 ->
  (length (filter notnan active) <= 1)%nat \/ (length f1 <= 1)%nat ->
  cell7 f1 f2 active b1 b2 = Ok (NaN, NaN).
Proof.
  intros Hlen Hfew. unfold cell7. rewrite (np_cov_ok _ _ Hlen). cbn [bind].
  destruct Hfew as [Hfew|Hfew].
  - assert (Har : ar_squared active = NaN).
    { rewrite ar_squared_nanvar. unfold nanvar.
      apply Nat.leb_le in Hfew. now rewrite Hfew. }
    rewrite Har.
    now rewrite (proj1 (fmcar_nan_variance _ _ _)),
      (proj2 (fmcar_nan_variance _ _ _)).
  - assert (Hcov : forall ys, sample_cov f1 ys = NaN).
    { intro ys. unfold sample_cov, estimator_cov.
      apply Nat.leb_le in Hfew. now rewrite Hfew. }
    assert (Hcov2 : sample_cov f2 f2 = NaN).
    { unfold sample_cov, estimator_cov. rewrite <- Hlen.
      apply Nat.leb_le in Hfew. now rewrite Hfew. }
    unfold fmcar1, fmcar2, entry. cbn [nth]. rewrite !Hcov, Hcov2.
    rewrite ?fmul_nan_r, ?fadd_nan_r, ?fmul_nan_r. reflexivity.
Qed.

Lemma too_few_observations_witness :
  cell7 [Fin 1] [Fin 2] Samples.active_returns (Fin 1) (Fin 2) = Ok (NaN, NaN).
Proof.
  apply (too_few_observations [Fin 1] [Fin 2] Samples.active_returns
           (Fin 1) (Fin 2) eq_refl).
  right. simpl. lia.
Defined.

(** X17: the two factors can be exchanged: with the series and the
    sensitivities swapped, cell 7 returns the two FMCARs swapped (and
    raises on the same inputs). *)
Theorem cell7_swap_factors (f1 f2 active : Series) (b1 b2 : float64) :
  cell7 f2 f1 active b2 b1 = swap_pair (cell7 f1 f2 active b1 b2).
Proof.
  unfold cell7, swap_pair.
  destruct (Nat.eq_dec (length f1) (length f2)) as [Hlen|Hlen].
  - rewrite (np_cov_ok _ _ Hlen), (np_cov_ok _ _ (eq_sym Hlen)).
    cbn [bind fst snd]. unfold fmcar1, fmcar2, entry. cbn [nth].
    unfold sample_cov. rewrite (estimator_cov_sym 1 f2 f1) by auto.
    now rewrite (fadd_comm (fmul b1 _) (fmul b2 (estimator_cov 1 f2 f2))),
      (fadd_comm (fmul b2 _) (fmul b1 (estimator_cov 1 f1 f1))).
  - rewrite (np_cov_mismatch _ _ Hlen).
    rewrite (np_cov_mismatch f2 f1) by auto. reflexivity.
Qed.

(** X18: cell 7 is the formula of the notebook's introduction for two
    factors: its results are [FMCAR_1] and [FMCAR_2] of the K-factor
    formula, and it raises when the formula does. *)
Theorem cell7_is_two_factor_formula
        (f1 f2 active : Series) (b1 b2 : float64) :
  cell7 f1 f2 active b1 b2
  = (v1 <- FMCAR [b1; b2] [f1; f2] active 0 ;;
     v2 <- FMCAR [b1; b2] [f1; f2] active 1 ;;
     Ok (v1, v2)).
Proof.
  unfold cell7, FMCAR. fold (np_cov f1 f2).
  destruct (Nat.eq_dec (length f1) (length f2)) as [Hlen|Hlen].
  - rewrite (np_cov_ok _ _ Hlen). cbn [bind length seq map nth fsum fold_right].
    unfold fmcar1, fmcar2, entry. cbn [nth]. rewrite !fadd_0_r.
    unfold sample_cov. rewrite (estimator_cov_sym 1 f2 f1) by auto.
    now rewrite (fadd_comm (fmul b2 (estimator_cov 1 f1 f2))
                           (fmul b1 (estimator_cov 1 f1 f1))).
  - rewrite (np_cov_mismatch _ _ Hlen). reflexivity.
Qed.

End Cell7.

(** ** FMCAR on finite data *)

Section FiniteFmcar.

Import Pricing Attribution.

Lemma rsum_repeat (g : R -> R) (c : R) (n : nat) :
  rsum (map g (repeat c n)) = INR n * g c.
Proof.
  induction n as [|n IH]; [simpl; ring|].
  rewrite S_INR. cbn [repeat map rsum fold_right].
  fold (rsum (map g (repeat c n))). rewrite IH. ring.
Qed.

Lemma rvar_repeat (c : R) (n : nat) : (1 <= n)%nat -> rvar (repeat c n) = 0.
Proof.
  intro Hn. unfold rvar, rcov. rewrite zip_with_diag.
  rewrite (rsum_repeat (fun x => (x - rmean (repeat c n)) * (x - rmean (repeat c n)))).
  assert (Hm : rmean (repeat c n) = c).
  { unfold rmean. rewrite <- (map_id (repeat c n)) at 1.
    rewrite (rsum_repeat (fun x => x)), repeat_length.
    field. apply not_0_INR. lia. }
  rewrite Hm. unfold Rdiv. ring.
Qed.

Lemma map_fin_repeat (c : R) (n : nat) :
  repeat (Fin c) n = map Fin (repeat c n).
Proof. induction n as [|n IH]; simpl; [reflexivity | now rewrite IH]. Qed.

Lemma constant_variance (c : R) (n : nat) :
  (2 <= n)%nat -> ar_squared (repeat (Fin c) n) = Fin 0.
Proof.
  intro Hn. rewrite map_fin_repeat, ar_squared_fin.
  - f_equal. apply rvar_repeat. lia.
  - now rewrite repeat_length.
Qed.



(** Cell 7 on finite data with a nonzero active variance, in real
    numbers. *)
Lemma cell7_fin (xs ys acts : list R) (b1 b2 : R) :
  length xs = length ys -> (2 <= length xs)%nat -> (2 <= length acts)%nat ->
  rvar acts <> 0 ->
  cell7 (map Fin xs) (map Fin ys) (map Fin acts) (Fin b1) (Fin b2)
  = Ok (Fin (b1 * (b2 * rcov xs ys + b1 * rcov xs xs) / rvar acts),
        Fin (b2 * (b1 * rcov xs ys + b2 * rcov ys ys) / rvar acts)).
Proof.
  intros Hlen Hn Ha Hv. unfold cell7.
  rewrite np_cov_ok by (now rewrite !length_map). cbn [bind].
  unfold fmcar1, fmcar2, entry. cbn [nth].
  rewrite (ar_squared_fin acts Ha).
  rewrite !sample_cov_fin by (auto; lia).
  cbn [fmul fadd fdiv].
  destruct (Req_EM_T (rvar acts) 0) as [Hz|_]; [contradiction|]. reflexivity.
Qed.


Lemma sample_active_variance : rvar [1; 3; 2] = 1.
Proof. unfold rvar, rcov, rmean. simpl. field. Qed.


(** X21: an asset with no sensitivity to a factor gets no contribution
    from it: on finite data with a nonzero active variance, [b1 = 0]
    gives [FMCAR_1 = 0] and [b2 = 0] gives [FMCAR_2 = 0]. *)
Theorem zero_sensitivity_zero_contribution (xs ys acts : list R) (b : R) :
  length xs = length ys ->
  (2 <= length xs)%nat ->
  (2 <= length acts)%nat ->
  rvar acts <> 0 ->
  (exists v2, cell7 (map Fin xs) (map Fin ys) (map Fin acts) (Fin 0) (Fin b)
              = Ok (Fin 0, v2)) /\
  (exists v1, cell7 (map Fin xs) (map Fin ys) (map Fin acts) (Fin b) (Fin 0)
              = Ok (v1, Fin 0)).
Proof.
  intros Hlen Hn Ha Hv. split.
  - rewrite (cell7_fin xs ys acts 0 b Hlen Hn Ha Hv).
    eexists. apply f_equal. apply f_equal2; [|reflexivity].
    f_equal. unfold Rdiv. ring.
  - rewrite (cell7_fin xs ys acts b 0 Hlen Hn Ha Hv).
    eexists. apply f_equal. apply f_equal2; [reflexivity|].
    f_equal. unfold Rdiv. ring.
Qed.

Lemma zero_sensitivity_zero_contribution_witness :
  (exists v2, cell7 (map Fin [1; 2; 3]) (map Fin [2; 1; 4]) (map Fin [1; 3; 2])
                    (Fin 0) (Fin 2)
              = Ok (Fin 0, v2)) /\
  (exists v1, cell7 (map Fin [1; 2; 3]) (map Fin [2; 1; 4]) (map Fin [1; 3; 2])
                    (Fin 2) (Fin 0)
              = Ok (v1, Fin 0)).
Proof.
  apply (zero_sensitivity_zero_contribution [1; 2; 3] [2; 1; 4] [1; 3; 2] 2).
  - reflexivity.
  - simpl. lia.
  - simpl. lia.
  - rewrite sample_active_variance. lra.
Defined.

Lemma rsum_cons (a : R) (l : list R) : rsum (a :: l) = a + rsum l.
Proof. reflexivity. Qed.

Lemma fitted_length (b1 b2 : R) (xs ys : list R) :
  length xs = length ys -> length (fitted b1 b2 xs ys) = length xs.
Proof.
  intro Hlen. unfold fitted. rewrite zip_with_length. lia.
Qed.

Lemma rsum_fitted (b1 b2 : R) (xs ys : list R) :
  length xs = length ys ->
  rsum (fitted b1 b2 xs ys) = b1 * rsum xs + b2 * rsum ys.
Proof.
  unfold fitted. revert ys.
  induction xs as [|x xs IH]; intros [|y ys] Hlen; simpl in Hlen;
    try discriminate.
  - simpl. ring.
  - rewrite zip_with_cons, !rsum_cons, IH by lia. ring.
Qed.

Lemma rmean_fitted (b1 b2 : R) (xs ys : list R) :
  length xs = length ys -> (1 <= length xs)%nat ->
  rmean (fitted b1 b2 xs ys) = b1 * rmean xs + b2 * rmean ys.
Proof.
  intros Hlen Hn. unfold rmean.
  rewrite rsum_fitted, fitted_length, <- Hlen by assumption.
  field. apply not_0_INR. lia.
Qed.

Lemma centred_squares_fitted (b1 b2 mx my : R) (xs ys : list R) :
  length xs = length ys ->
  rsum (map (fun z => (z - (b1 * mx + b2 * my)) * (z - (b1 * mx + b2 * my)))
            (fitted b1 b2 xs ys))
  = b1 * b1 * rsum (map (fun x => (x - mx) * (x - mx)) xs)
    + 2 * b1 * b2 * rsum (zip_with (fun x y => (x - mx) * (y - my)) xs ys)
    + b2 * b2 * rsum (map (fun y => (y - my) * (y - my)) ys).
Proof.
  unfold fitted. revert ys.
  induction xs as [|x xs IH]; intros [|y ys] Hlen; simpl in Hlen;
    try discriminate.
  - simpl. ring.
  - rewrite !zip_with_cons. cbn [map]. rewrite !rsum_cons, IH by lia. ring.
Qed.

(** The variance of the factor part in terms of the factors'
    covariances. *)
Lemma rvar_fitted (b1 b2 : R) (xs ys : list R) :
  length xs = length ys -> (1 <= length xs)%nat ->
  rvar (fitted b1 b2 xs ys)
  = b1 * b1 * rcov xs xs + 2 * b1 * b2 * rcov xs ys + b2 * b2 * rcov ys ys.
Proof.
  intros Hlen Hn. unfold rvar, rcov.
  rewrite !zip_with_diag, rmean_fitted, fitted_length, <- Hlen by assumption.
  rewrite (centred_squares_fitted b1 b2 (rmean xs) (rmean ys) xs ys Hlen).
  unfold Rdiv. ring.
Qed.

(** X22: the two contributions add up to the share of the active variance
    that the factor part [b1 * F1 + b2 * F2] explains; the sum is never
    negative, though one contribution can be. *)
Theorem fmcar_sum_explained_variance (xs ys acts : list R) (b1 b2 : R) :
  length xs = length ys ->
  (2 <= length xs)%nat ->
  (2 <= length acts)%nat ->
  rvar acts <> 0 ->
  exists v1 v2 : float64,
    cell7 (map Fin xs) (map Fin ys) (map Fin acts) (Fin b1) (Fin b2)
    = Ok (v1, v2) /\
    fadd v1 v2 = Fin (rvar (fitted b1 b2 xs ys) / rvar acts) /\
    0 <= rvar (fitted b1 b2 xs ys) / rvar acts.
Proof.
  intros Hlen Hn Ha Hv.
  rewrite (cell7_fin xs ys acts b1 b2 Hlen Hn Ha Hv).
  eexists. eexists. split; [reflexivity|]. split.
  - cbn [fadd]. f_equal. rewrite rvar_fitted by (auto; lia).
    field. exact Hv.
  - pose proof (rvar_nonneg acts). pose proof (rvar_nonneg (fitted b1 b2 xs ys)).
    apply Rmult_le_pos; [assumption|].
    left. apply Rinv_0_lt_compat. lra.
Qed.

Lemma fmcar_sum_explained_variance_witness :
  exists v1 v2 : float64,
    cell7 (map Fin [1; 2; 3]) (map Fin [2; 1; 4]) (map Fin [1; 3; 2])
          (Fin 1) (Fin 2)
    = Ok (v1, v2) /\
    fadd v1 v2 = Fin (rvar (fitted 1 2 [1; 2; 3] [2; 1; 4]) / rvar [1; 3; 2]) /\
    0 <= rvar (fitted 1 2 [1; 2; 3] [2; 1; 4]) / rvar [1; 3; 2].
Proof.
  apply (fmcar_sum_explained_variance [1; 2; 3] [2; 1; 4] [1; 3; 2] 1 2).
  - reflexivity.
  - simpl. lia.
  - simpl. lia.
  - rewrite sample_active_variance. lra.
Defined.

End FiniteFmcar.

(** ** An asset that moves with the benchmark *)

Lemma series_sub_self (rs : list R) :
  Pricing.series_sub (map Fin rs) (map Fin rs) = repeat (Fin 0) (length rs).
Proof.
  induction rs as [|r rs IH]; [reflexivity|].
  cbn [map Pricing.series_sub length repeat]. rewrite IH.
  unfold fsub. cbn [fneg fadd]. do 2 f_equal. ring.
Qed.

(** X23: an asset whose price is a fixed nonzero multiple of the
    benchmark's (no price missing or zero) has active return zero on every
    date; with three or more prices its active variance is zero and cell 7
    returns values that are not finite. *)
Theorem asset_moving_with_benchmark
        (get_pricing_symbol : string -> Pricing.Series) (k : R) (ps : list R) :
  k <> 0 ->
  Forall (fun q => q <> 0) ps ->
  get_pricing_symbol "SPY"%string = map Fin ps ->
  get_pricing_symbol "HSC"%string = map Fin (map (Rmult k) ps) ->
  Pricing.active get_pricing_symbol = repeat (Fin 0) (length ps - 1) /\
  ((3 <= length ps)%nat ->
   forall (f1 f2 : Pricing.Series) (b1 b2 : float64),
     length f1 = length f2 ->
     exists v1 v2 : float64,
       Attribution.cell7 f1 f2 (Pricing.active get_pricing_symbol) b1 b2
       = Ok (v1, v2) /\
       isfinite v1 = false /\ isfinite v2 = false).
Proof.
  intros Hk Hnz Hspy Hhsc.
  assert (Hact : Pricing.active get_pricing_symbol
                 = repeat (Fin 0) (length ps - 1)).
  { unfold Pricing.active, Pricing.asset, Pricing.bench.
    rewrite Hspy, Hhsc.
    rewrite (present_returns _ (scaled_nonzero k ps Hk Hnz)).
    rewrite (present_returns _ Hnz).
    rewrite (simple_returns_scale k ps Hk Hnz), series_sub_self.
    now rewrite simple_returns_length. }
  split; [exact Hact|].
  intros Hn f1 f2 b1 b2 Hlen. rewrite Hact.
  unfold Attribution.cell7. rewrite (np_cov_ok _ _ Hlen). cbn [bind].
  rewrite (constant_variance 0 (length ps - 1)) by lia.
  eexists. eexists. split; [reflexivity|].
  split; apply fdiv_zero_not_finite.
Qed.

Lemma asset_moving_with_benchmark_witness :
  Pricing.active
    (fun symbol => if String.eqb symbol "SPY" then map Fin [1; 2; 4]
                   else map Fin (map (Rmult 10) [1; 2; 4]))
  = repeat (Fin 0) 2 /\
  exists v1 v2 : float64,
    Attribution.cell7 [Fin 1; Fin 2] [Fin 2; Fin 1]
      (Pricing.active
         (fun symbol => if String.eqb symbol "SPY" then map Fin [1; 2; 4]
                        else map Fin (map (Rmult 10) [1; 2; 4])))
      (Fin 1) (Fin 2)
    = Ok (v1, v2) /\
    isfinite v1 = false /\ isfinite v2 = false.
Proof.
  destruct (asset_moving_with_benchmark
              (fun symbol => if String.eqb symbol "SPY" then map Fin [1; 2; 4]
                             else map Fin (map (Rmult 10) [1; 2; 4]))
              10 [1; 2; 4]
              ltac:(lra) ltac:(repeat constructor; lra) eq_refl eq_refl)
    as [Hact Hcell].
  split; [exact Hact|].
  apply (Hcell ltac:(simpl; lia) [Fin 1; Fin 2] [Fin 2; Fin 1] (Fin 1) (Fin 2)
               eq_refl).
Defined.

(** ** The mean return of a bucket with complete price histories *)

Section BucketMean.

Import Pricing Attribution.

Lemma filter_all {A : Type} (f : A -> bool) (l : list A) :
  (forall x, In x l -> f x = true) -> filter f l = l.
Proof.
  induction l as [|a l IH]; intro H; simpl; [reflexivity|].
  rewrite (H a (or_introl eq_refl)), IH; [reflexivity|].
  intros x Hx. apply H. now right.
Qed.

Lemma nth_map_fin (l : list R) (i : nat) :
  (i < length l)%nat -> nth i (map Fin l) NaN = Fin (nth i l 0).
Proof.
  intro Hi. rewrite (nth_indep _ NaN (Fin 0)) by (now rewrite length_map).
  apply map_nth.
Qed.

Lemma nanmean_fin (l : list R) : l <> [] -> nanmean (map Fin l) = Fin (rmean l).
Proof.
  intro Hne. unfold nanmean. rewrite (filter_complete _ (complete_fin l)).
  now apply array_mean_fin.
Qed.

Lemma returns_frame (n : nat) (pss : list (list R)) :
  Forall (fun ps => length ps = n /\ Forall (fun q => q <> 0) ps) pss ->
  frame_drop_first (frame_pct_change (mkFrame n (map (map Fin) pss)))
  = mkFrame (n - 1) (map (fun ps => map Fin (simple_returns ps)) pss).
Proof.
  intro H. unfold frame_drop_first, frame_pct_change. cbn [nrows columns].
  f_equal. rewrite !map_map. apply map_ext_in. intros ps Hps.
  rewrite Forall_forall in H. apply present_returns. now apply H.
Qed.

Lemma transposed_returns (n : nat) (pss : list (list R)) :
  Forall (fun ps => length ps = n /\ Forall (fun q => q <> 0) ps) pss ->
  transpose (mkFrame (n - 1) (map (fun ps => map Fin (simple_returns ps)) pss))
  = mkFrame (length pss)
            (map (fun t => map Fin (cross_section pss t)) (seq 0 (n - 1))).
Proof.
  intro H. unfold transpose. cbn [nrows columns]. rewrite length_map. f_equal.
  apply map_ext_in. intros t Ht. apply in_seq in Ht.
  unfold cross_section. rewrite !map_map. apply map_ext_in. intros ps Hps.
  rewrite Forall_forall in H. destruct (H ps Hps) as [Hlen _].
  apply nth_map_fin. rewrite simple_returns_length. lia.
Qed.

Lemma dropna_complete_frame (m : nat) (cols : list (list R)) :
  Forall (fun c => length c = m) cols ->
  frame_dropna (mkFrame m (map (map Fin) cols)) = mkFrame m (map (map Fin) cols).
Proof.
  intro H.
  assert (Hrows : complete_rows (mkFrame m (map (map Fin) cols)) = seq 0 m).
  { unfold complete_rows. cbn [nrows columns]. apply filter_all.
    intros i Hi. apply in_seq in Hi. apply forallb_forall. intros c Hc.
    apply in_map_iff in Hc. destruct Hc as (l & <- & Hl).
    rewrite Forall_forall in H. rewrite nth_map_fin by (rewrite (H l Hl); lia).
    reflexivity. }
  unfold frame_dropna. rewrite Hrows. cbn [columns].
  rewrite length_seq. f_equal.
  rewrite <- (map_id (map (map Fin) cols)) at 2.
  apply map_ext_in. intros c Hc.
  apply in_map_iff in Hc. destruct Hc as (l & <- & Hl).
  rewrite Forall_forall in H.
  rewrite <- (H l Hl), <- (length_map Fin l). apply map_nth_seq.
Qed.

(** The mean over the complete cross-section of one date. *)
Lemma np_mean_cross_sections (m : nat) (pss : list (list R)) (ts : list nat) :
  pss <> [] ->
  np_mean (mkFrame m (map (fun t => map Fin (cross_section pss t)) ts))
  = map (fun t => Fin (rmean (cross_section pss t))) ts.
Proof.
  intro Hne. unfold np_mean. cbn [columns]. rewrite map_map.
  apply map_ext. intro t. apply nanmean_fin.
  unfold cross_section. destruct pss; [contradiction | discriminate].
Qed.

Lemma dropna_cross_sections (pss : list (list R)) (ts : list nat) :
  frame_dropna (mkFrame (length pss)
                        (map (fun t => map Fin (cross_section pss t)) ts))
  = mkFrame (length pss) (map (fun t => map Fin (cross_section pss t)) ts).
Proof.
  rewrite <- (map_map (cross_section pss) (map Fin)).
  apply dropna_complete_frame.
  apply Forall_map, Forall_forall. intros t _.
  unfold cross_section. apply length_map.
Qed.

(** X24: for a bucket of assets with complete price histories over [n]
    dates (no price missing or zero), the bucket's mean return on each of
    the [n - 1] return dates is the arithmetic mean, over the assets, of
    [p(t+1) / p(t) - 1]. *)
Theorem bucket_mean_of_complete_prices (n : nat) (pss : list (list R)) :
  pss <> [] ->
  Forall (fun ps => length ps = n /\ Forall (fun q => q <> 0) ps) pss ->
  bucket_mean (mkFrame n (map (map Fin) pss))
  = map (fun t => Fin (rmean (cross_section pss t))) (seq 0 (n - 1)).
Proof.
  intros Hne H. unfold bucket_mean.
  rewrite (returns_frame n pss H), (transposed_returns n pss H).
  rewrite dropna_cross_sections.
  now apply np_mean_cross_sections.
Qed.

Lemma bucket_mean_of_complete_prices_witness :
  bucket_mean (mkFrame 3 (map (map Fin) [[1; 2; 4]; [2; 3; 3]]))
  = map (fun t => Fin (rmean (cross_section [[1; 2; 4]; [2; 3; 3]] t)))
        (seq 0 (3 - 1)).
Proof.
  apply (bucket_mean_of_complete_prices 3 [[1; 2; 4]; [2; 3; 3]]).
  - discriminate.
  - repeat constructor; lra.
Defined.

End BucketMean.

(** ** The factors of a universe with complete price histories *)

Section Factors.

Import Pricing Attribution.

Lemma series_sub_fin {A : Type} (g h : A -> R) (l : list A) :
  series_sub (map (fun t => Fin (g t)) l) (map (fun t => Fin (h t)) l)
  = map (fun t => Fin (g t - h t)) l.
Proof.
  induction l as [|a l IH]; [reflexivity|].
  cbn [map series_sub]. now rewrite IH.
Qed.

Lemma bucket_mean_complete_pricing
      (history : nat -> list R) (n : nat) (ids : list nat) :
  (forall id, length (history id) = n /\ Forall (fun q => q <> 0) (history id)) ->
  ids <> [] ->
  bucket_mean (complete_pricing history n ids)
  = map (fun t => Fin (mean_return history ids t)) (seq 0 (n - 1)).
Proof.
  intros Hh Hne. unfold complete_pricing, mean_return, bucket_mean.
  rewrite <- (map_map history (map Fin)).
  assert (H : Forall (fun ps => length ps = n /\ Forall (fun q => q <> 0) ps)
                     (map history ids)).
  { apply Forall_map, Forall_forall. intros id _. apply Hh. }
  rewrite (returns_frame n _ H), (transposed_returns n _ H).
  rewrite dropna_cross_sections. apply np_mean_cross_sections.
  destruct ids; [contradiction | discriminate].
Qed.

Lemma index_nonempty (rows : list Universe.row) :
  (1 <= length rows)%nat -> Universe.index rows <> [].
Proof.
  destruct rows; simpl; [lia | discriminate].
Qed.

(** X25: when every asset has a complete price history over [n] dates
    and the universe has at least four assets, each factor is, date by
    date, the mean return of its top bucket minus the mean return of its
    bottom bucket, a finite number. *)
Theorem factors_long_top_short_bottom
        (history : nat -> list R) (n : nat) (data : list Universe.row) :
  (forall id, length (history id) = n /\ Forall (fun q => q <> 0) (history id)) ->
  (4 <= length data)%nat ->
  f1 (complete_pricing history n) data
  = map (fun t =>
           Fin (mean_return history (Universe.index (Universe.market_cap_top data)) t
                - mean_return history
                    (Universe.index (Universe.market_cap_bottom data)) t))
        (seq 0 (n - 1)) /\
  f2 (complete_pricing history n) data
  = map (fun t =>
           Fin (mean_return history (Universe.index (Universe.bp_top data)) t
                - mean_return history (Universe.index (Universe.bp_bottom data)) t))
        (seq 0 (n - 1)).
Proof.
  intros Hh Hn.
  assert (Hdiv : (1 <= 3 * length data / 10)%nat).
  { apply Nat.div_le_lower_bound; lia. }
  assert (Htop : (1 <= length data - 7 * length data / 10)%nat).
  { pose proof (Nat.div_mod_eq (7 * length data) 10).
    pose proof (Nat.mod_upper_bound (7 * length data) 10). lia. }
  unfold f1, f2.
  rewrite !bucket_mean_complete_pricing; try exact Hh.
  - split; apply series_sub_fin.
  - apply index_nonempty. unfold Universe.bp_bottom.
    now rewrite bottom_length.
  - apply index_nonempty. unfold Universe.bp_top. now rewrite top_length.
  - apply index_nonempty. unfold Universe.market_cap_bottom.
    now rewrite bottom_length.
  - apply index_nonempty. unfold Universe.market_cap_top.
    now rewrite top_length.
Qed.

Lemma factors_long_top_short_bottom_witness :
  f1 (complete_pricing (fun id => [1; 2 + INR id; 4]) 3) (Samples.universe 10)
  = map (fun t =>
           Fin (mean_return (fun id => [1; 2 + INR id; 4])
                  (Universe.index (Universe.market_cap_top (Samples.universe 10))) t
                - mean_return (fun id => [1; 2 + INR id; 4])
                    (Universe.index
                       (Universe.market_cap_bottom (Samples.universe 10))) t))
        (seq 0 (3 - 1)).
Proof.
  apply (factors_long_top_short_bottom
           (fun id => [1; 2 + INR id; 4]) 3 (Samples.universe 10)).
  - intro id. split; [reflexivity|].
    pose proof (pos_INR id). repeat constructor; lra.
  - rewrite universe_length. lia.
Defined.

End Factors.
